(** * NewsNexusUrlScraper01: the selection-and-cascade engine

    A shallow embedding of [src/cheerioScraper.ts] and [src/scraper.ts]
    (the latter holds both the Puppeteer strategy and the coordinator
    [main]).  Asynchronous code is sequential here: every [await] is a
    monadic bind.  The network, the HTML extraction and the database
    connectivity are oracles of an environment; everything the
    coordinator decides is computed. *)

From Stdlib Require Import List String Ascii ZArith Arith Bool Lia.
From Stdlib Require Import DecimalString SpecFloat.
Import ListNotations.
Local Open Scope string_scope.

(** ** JavaScript values used by the code *)

(** A JS string; [String.length] stands for the [.length] property. *)
Definition truthy (s : string) : bool :=
  match s with EmptyString => false | String _ _ => true end.

(** Truthiness of a nullable string ([null], [undefined] and [""] are falsy). *)
Definition truthy_opt (s : option string) : bool :=
  match s with None => false | Some s => truthy s end.

(** [a || b] on strings. *)
Definition or_else (a b : string) : string := if truthy a then a else b.

(** [x === false] and [x === null] on a nullable boolean. *)
Definition is_false (b : option bool) : bool :=
  match b with Some false => true | _ => false end.

Definition is_null (b : option bool) : bool :=
  match b with None => true | _ => false end.

(** Template-literal rendering of a non-negative integer. *)
Definition show_nat (n : nat) : string := NilEmpty.string_of_uint (Nat.to_uint n).

(** [Array.prototype.join]. *)
Fixpoint join (sep : string) (l : list string) : string :=
  match l with
  | [] => ""
  | [s] => s
  | s :: rest => s ++ sep ++ join sep rest
  end.

Definition nl : string := String (ascii_of_nat 10) EmptyString.

(** ** Data model *)

(** A row of [ArticleContents]; the two statuses are nullable booleans. *)
Module ArticleContent.
Record t := mk {
  id : Z;
  articleId : Z;
  content : string;
  scrapeStatusCheerio : option bool;
  scrapeStatusPuppeteer : option bool
}.
End ArticleContent.

(** An [Article] instance as [findAll] with the [ArticleContent] include
    returns it; the metadata the coordinator never reads is left out. *)
Module Article.
Record t := mk {
  id : Z;
  title : option string;
  url : option string;
  ArticleContents : option (list ArticleContent.t)
}.
End Article.

(** A row of the [Articles] table. *)
Record ArticleRow := mkArticleRow {
  row_id : Z;
  row_title : option string;
  row_url : option string
}.

Module ScrapeResult.
Record t := mk {
  success : bool;
  content : option string;
  error : option string
}.
End ScrapeResult.

(** The counters are JS numbers that only ever hold small non-negative
    integers, which doubles represent exactly. *)
Record ScrapingStats := mkStats {
  total : nat;
  cheerioSuccess : nat;
  cheerioFailed : nat;
  puppeteerSuccess : nat;
  puppeteerFailed : nat;
  skipped : nat
}.

(** The values an [update] call passes: absent fields are left alone. *)
Record UpdateValues := mkUpdate {
  set_content : option string;
  set_scrapeStatusCheerio : option (option bool);
  set_scrapeStatusPuppeteer : option (option bool)
}.

(** ** Observable effects *)

Inductive Event :=
| EvAuthenticate
| EvFindAll
| EvCreate (row : ArticleContent.t)
| EvUpdate (id : Z) (values : UpdateValues)
| EvFindOne (articleId : Z)
| EvClose
| EvAxiosGet (url : string)
| EvPuppeteerGoto (url : string)
| EvDelay (ms : Z)
| EvNoArticles
| EvSummary (stats : ScrapingStats) (rate : option string)
| EvFatal (message : string)
| EvExit (code : Z).

(** The store, the connection and the trace of effects (oldest first). *)
Record World := mkWorld {
  articles : list ArticleRow;
  articleContents : list ArticleContent.t;
  nextContentId : Z;
  connected : bool;
  dbOps : nat;
  trace : list Event
}.

(** What an oracle answers: a value, or a thrown error's message. *)
Inductive Answer (A : Type) :=
| Ok (a : A)
| Err (message : string).
Arguments Ok {A} a.
Arguments Err {A} message.

(** The world outside the process.
    - [axios_get url]: [response.data] of [axios.get(url, ...)], or the
      network or timeout error it throws;
    - [cheerio_paragraphs data]: the trimmed texts of the [p] elements of
      the container [cheerio.load(data)] selects, or a parse error;
    - [puppeteer_goto url]: launching the browser, opening the page and
      [page.goto(url, ...)], which throws on a timeout or a network error;
    - [page_evaluate url]: the trimmed texts of the [p] elements of the
      container and the trimmed text of the container itself;
    - [browser_close url]: [browser.close()] of the [try] body;
    - [dbFault n]: whether the [n]-th persistence operation of the run
      fails (connectivity loss). *)
Record Env := mkEnv {
  axios_get : string -> Answer string;
  cheerio_paragraphs : string -> Answer (list string);
  puppeteer_goto : string -> Answer unit;
  page_evaluate : string -> Answer (list string * string);
  browser_close : string -> Answer unit;
  dbFault : nat -> bool
}.

(** ** The effect monad: state, exceptions and process exit *)

Inductive Outcome (A : Type) :=
| Val (a : A)
| Throw (message : string)
| Exited (code : Z).
Arguments Val {A} a.
Arguments Throw {A} message.
Arguments Exited {A} code.

Definition M (A : Type) : Type := World -> Outcome A * World.

Definition ret {A} (a : A) : M A := fun w => (Val a, w).

Definition bind {A B} (m : M A) (k : A -> M B) : M B :=
  fun w =>
    match m w with
    | (Val a, w1) => k a w1
    | (Throw e, w1) => (Throw e, w1)
    | (Exited c, w1) => (Exited c, w1)
    end.

Declare Scope js_scope.
Delimit Scope js_scope with js.
Notation "x <- c1 ;; c2" := (bind c1 (fun x => c2))
  (at level 61, c1 at next level, right associativity) : js_scope.
Notation "c1 ;; c2" := (bind c1 (fun _ => c2))
  (at level 61, right associativity) : js_scope.
Local Open Scope js_scope.

Definition log (e : Event) (w : World) : World :=
  mkWorld (articles w) (articleContents w) (nextContentId w) (connected w)
          (dbOps w) (trace w ++ [e]).

Definition emit (e : Event) : M unit := fun w => (Val tt, log e w).

Definition throw {A} (message : string) : M A := fun w => (Throw message, w).

(** [process.exit(code)]: the process ends on the spot; no handler and no
    [finally] block of the callers runs after it. *)
Definition process_exit {A} (code : Z) : M A :=
  fun w => (Exited code, log (EvExit code) w).

(** [try { body } catch (error) { handler }]. *)
Definition try_catch {A} (body : M A) (handler : string -> M A) : M A :=
  fun w =>
    match body w with
    | (Throw e, w1) => handler e w1
    | r => r
    end.

(** Runs the [finally] block and then resumes with outcome [r], unless the
    block itself throws or exits. *)
Definition and_finally {A} (r : Outcome A) (fin : M unit) : M A :=
  fun w =>
    match fin w with
    | (Val _, w1) => (r, w1)
    | (Throw e, w1) => (Throw e, w1)
    | (Exited c, w1) => (Exited c, w1)
    end.

(** [try { body } catch (error) { handler } finally { fin }]. *)
Definition try_catch_finally {A} (body : M A) (handler : string -> M A)
    (fin : M unit) : M A :=
  fun w =>
    match body w with
    | (Val a, w1) => and_finally (Val a) fin w1
    | (Exited c, w1) => (Exited c, w1)
    | (Throw e, w1) =>
        match handler e w1 with
        | (Exited c, w2) => (Exited c, w2)
        | (r, w2) => and_finally r fin w2
        end
    end.

(** Lifts an oracle's answer: an [Err] is a thrown exception. *)
Definition answer {A} (a : Answer A) : M A :=
  match a with
  | Ok v => ret v
  | Err e => throw e
  end.

(** ** Number formatting of the summary line *)

(** JS numbers are IEEE 754 binary64 values. *)
Definition prec : Z := 53.
Definition emax : Z := 1024.

Definition number_of_nat (n : nat) : spec_float :=
  binary_normalize prec emax (Z.of_nat n) 0 false.

(** The integer [n] for which [n / 10 - x] is closest to zero, the larger
    one on a tie, for the non-negative value [x = m * 2 ^ e]. *)
Definition nearest_tenths (m : positive) (e : Z) : Z :=
  match e with
  | Zneg p => ((2 * (10 * Zpos m) + 2 ^ Zpos p) / (2 * 2 ^ Zpos p))%Z
  | _ => (10 * Zpos m * 2 ^ e)%Z
  end.

Definition show_Z (n : Z) : string := NilEmpty.string_of_uint (N.to_uint (Z.to_N n)).

(** The digits of [n] with a decimal point before the last one. *)
Definition show_tenths (n : Z) : string :=
  show_Z (n / 10)%Z ++ "." ++ show_Z (n mod 10)%Z.

(** [Number.prototype.toFixed(1)].  Values of magnitude [1e21] and above
    are rendered by [Number.prototype.toString], which is not modelled:
    the result is [None] there. *)
Definition toFixed1 (x : spec_float) : option string :=
  match x with
  | S754_nan => Some "NaN"
  | S754_infinity false => Some "Infinity"
  | S754_infinity true => Some "-Infinity"
  | S754_zero _ => Some "0.0"
  | S754_finite s m e =>
      let n := nearest_tenths m e in
      if (10 ^ 22 <=? n)%Z then None
      else Some ((if s then "-" else "") ++ show_tenths n)
  end.

(** [(totalSuccess / stats.total) * 100] on doubles, the number that
    [toFixed(1)] then prints. *)
Definition successRate (totalSuccess total : nat) : spec_float :=
  SFmul prec emax
    (SFdiv prec emax (number_of_nat totalSuccess) (number_of_nat total))
    (number_of_nat 100).

(** ** The program *)

Section Program.

Variable env : Env.

(** *** cheerioScraper.ts *)

Definition contentTooShort (content : string) : ScrapeResult.t :=
  ScrapeResult.mk false None
    (Some ("Content too short (" ++ show_nat (String.length content)
           ++ " chars, minimum 200)")).

Definition nonEmptyText (text : string) : bool :=
  truthy text && (0 <? String.length text)%nat.

(** The threshold test and the two [return]s that close both [try] bodies. *)
Definition checkLength (content : string) : ScrapeResult.t :=
  if negb (truthy content) || (String.length content <? 200)%nat
  then contentTooShort content
  else ScrapeResult.mk true (Some content) None.

(** [paragraphs.join('\n\n')] over the non-empty trimmed paragraph texts. *)
Definition cheerioContent (texts : list string) : string :=
  join (nl ++ nl) (filter nonEmptyText texts).

(** What [page.evaluate] returns, from the trimmed paragraph texts and the
    trimmed text of the container:
    [textContent || container.textContent?.trim() || '']. *)
Definition puppeteerContent (dom : list string * string) : string :=
  or_else (join (nl ++ nl) (filter nonEmptyText (fst dom))) (or_else (snd dom) "").

Definition caught (errorMessage : string) : M ScrapeResult.t :=
  ret (ScrapeResult.mk false None (Some errorMessage)).

Definition scrapeArticleContentWithCheerio (url : string) : M ScrapeResult.t :=
  try_catch
    (emit (EvAxiosGet url) ;;
     data <- answer (axios_get env url) ;;
     texts <- answer (cheerio_paragraphs env data) ;;
     let content := cheerioContent texts in
     ret (checkLength content))
    caught.

(** *** scraper.ts *)

(** The [catch] block first closes the browser, swallowing any error of
    that close, and then returns the failure like the Cheerio one. *)
Definition scrapeArticleContentWithPuppeteer (url : string) : M ScrapeResult.t :=
  try_catch
    (emit (EvPuppeteerGoto url) ;;
     answer (puppeteer_goto env url) ;;
     dom <- answer (page_evaluate env url) ;;
     let content := puppeteerContent dom in
     answer (browser_close env url) ;;
     ret (checkLength content))
    caught.

(** *** The persistence collaborator *)

Definition bump (w : World) : World :=
  mkWorld (articles w) (articleContents w) (nextContentId w) (connected w)
          (S (dbOps w)) (trace w).

(** One operation on the store: it fails when the environment says the
    connection is lost, and is recorded in the trace when it succeeds. *)
Definition persistence {A} (ev : Event) (op : World -> A * World) : M A :=
  fun w =>
    if dbFault env (dbOps w) then (Throw "SequelizeConnectionError", bump w)
    else let (a, w1) := op (bump w) in (Val a, log ev w1).

Definition set_connected (b : bool) (w : World) : World :=
  mkWorld (articles w) (articleContents w) (nextContentId w) b
          (dbOps w) (trace w).

Definition set_contents (rows : list ArticleContent.t) (next : Z) (w : World) : World :=
  mkWorld (articles w) rows next (connected w) (dbOps w) (trace w).

(** [initModels(); await sequelize.authenticate()]. *)
Definition authenticate : M unit :=
  persistence EvAuthenticate (fun w => (tt, set_connected true w)).

(** [await sequelize.close()]. *)
Definition close : M unit :=
  persistence EvClose (fun w => (tt, set_connected false w)).

Definition contentsOf (rows : list ArticleContent.t) (articleId : Z) : list ArticleContent.t :=
  filter (fun c => ArticleContent.articleId c =? articleId)%Z rows.

Definition joined (rows : list ArticleContent.t) (r : ArticleRow) : Article.t :=
  Article.mk (row_id r) (row_title r) (row_url r) (Some (contentsOf rows (row_id r))).

(** [Article.findAll({ include: [{ model: ArticleContent, required: false }] })]. *)
Definition findAll : M (list Article.t) :=
  persistence EvFindAll (fun w => (map (joined (articleContents w)) (articles w), w)).

(** [ArticleContent.create({...})]: the new row takes the next identifier. *)
Definition create (articleId : Z) (content : string)
    (scrapeStatusCheerio scrapeStatusPuppeteer : option bool) : M unit :=
  fun w =>
    let row := ArticleContent.mk (nextContentId w) articleId content
                 scrapeStatusCheerio scrapeStatusPuppeteer in
    persistence (EvCreate row)
      (fun w1 => (tt, set_contents (articleContents w1 ++ [row]) (nextContentId w1 + 1)%Z w1)) w.

Definition applyValues (v : UpdateValues) (c : ArticleContent.t) : ArticleContent.t :=
  ArticleContent.mk (ArticleContent.id c) (ArticleContent.articleId c)
    (match set_content v with Some s => s | None => ArticleContent.content c end)
    (match set_scrapeStatusCheerio v with
     | Some b => b | None => ArticleContent.scrapeStatusCheerio c end)
    (match set_scrapeStatusPuppeteer v with
     | Some b => b | None => ArticleContent.scrapeStatusPuppeteer c end).

Definition updateRows (id : Z) (v : UpdateValues) (rows : list ArticleContent.t) :=
  map (fun c => if (ArticleContent.id c =? id)%Z then applyValues v c else c) rows.

(** [record.update({...})]: writes the given fields of the row of that record. *)
Definition update (record : ArticleContent.t) (v : UpdateValues) : M unit :=
  persistence (EvUpdate (ArticleContent.id record) v)
    (fun w => (tt, set_contents (updateRows (ArticleContent.id record) v (articleContents w))
                     (nextContentId w) w)).

(** [ArticleContent.findOne({ where: { articleId } })]. *)
Definition findOne (articleId : Z) : M (option ArticleContent.t) :=
  persistence (EvFindOne articleId)
    (fun w => (find (fun c => ArticleContent.articleId c =? articleId)%Z (articleContents w), w)).

(** *** The coordinator *)

(** The callback of [articlesToScrape.filter]. *)
Definition needsScraping (article : Article.t) : bool :=
  match Article.ArticleContents article with
  | None => true
  | Some [] => true
  | Some (content :: _) =>
      if is_false (ArticleContent.scrapeStatusCheerio content)
         && is_false (ArticleContent.scrapeStatusPuppeteer content)
      then false
      else if is_null (ArticleContent.scrapeStatusCheerio content) then true
      else if is_false (ArticleContent.scrapeStatusCheerio content)
              && is_null (ArticleContent.scrapeStatusPuppeteer content)
      then true
      else false
  end.

Definition existingContentOf (article : Article.t) : option ArticleContent.t :=
  match Article.ArticleContents article with
  | Some (content :: _) => Some content
  | _ => None
  end.

Definition needsCheerioOf (existingContent : option ArticleContent.t) : bool :=
  match existingContent with
  | None => true
  | Some c => is_null (ArticleContent.scrapeStatusCheerio c)
  end.

Definition needsPuppeteerOf (existingContent : option ArticleContent.t) : bool :=
  match existingContent with
  | None => false
  | Some c => is_false (ArticleContent.scrapeStatusCheerio c)
              && is_null (ArticleContent.scrapeStatusPuppeteer c)
  end.

(** [result.success && result.content]. *)
Definition succeeded (result : ScrapeResult.t) : bool :=
  ScrapeResult.success result && truthy_opt (ScrapeResult.content result).

Definition contentOf (result : ScrapeResult.t) : string :=
  match ScrapeResult.content result with Some s => s | None => "" end.

Definition incCheerioSuccess (s : ScrapingStats) : ScrapingStats :=
  mkStats (total s) (S (cheerioSuccess s)) (cheerioFailed s)
          (puppeteerSuccess s) (puppeteerFailed s) (skipped s).

Definition incCheerioFailed (s : ScrapingStats) : ScrapingStats :=
  mkStats (total s) (cheerioSuccess s) (S (cheerioFailed s))
          (puppeteerSuccess s) (puppeteerFailed s) (skipped s).

Definition incPuppeteerSuccess (s : ScrapingStats) : ScrapingStats :=
  mkStats (total s) (cheerioSuccess s) (cheerioFailed s)
          (S (puppeteerSuccess s)) (puppeteerFailed s) (skipped s).

Definition incPuppeteerFailed (s : ScrapingStats) : ScrapingStats :=
  mkStats (total s) (cheerioSuccess s) (cheerioFailed s)
          (puppeteerSuccess s) (S (puppeteerFailed s)) (skipped s).

Definition incSkipped (s : ScrapingStats) : ScrapingStats :=
  mkStats (total s) (cheerioSuccess s) (cheerioFailed s)
          (puppeteerSuccess s) (puppeteerFailed s) (S (skipped s)).

(** [existingContent || (await ArticleContent.findOne(...))]. *)
Definition contentRecordOf (existingContent : option ArticleContent.t)
    (articleId : Z) : M (option ArticleContent.t) :=
  match existingContent with
  | Some c => ret (Some c)
  | None => findOne articleId
  end.

(** [if (contentRecord) { await contentRecord.update(values) }]. *)
Definition updateIfFound (contentRecord : option ArticleContent.t)
    (v : UpdateValues) : M unit :=
  match contentRecord with
  | Some c => update c v
  | None => ret tt
  end.

(** The Puppeteer fallback that follows a Cheerio failure in the same pass. *)
Definition cascadeToPuppeteer (article : Article.t) (url : string)
    (existingContent : option ArticleContent.t) (stats : ScrapingStats)
    : M ScrapingStats :=
  puppeteerResult <- scrapeArticleContentWithPuppeteer url ;;
  if succeeded puppeteerResult then
    contentRecord <- contentRecordOf existingContent (Article.id article) ;;
    updateIfFound contentRecord
      (mkUpdate (Some (contentOf puppeteerResult)) None (Some (Some true))) ;;
    ret (incPuppeteerSuccess stats)
  else
    contentRecord <- contentRecordOf existingContent (Article.id article) ;;
    updateIfFound contentRecord (mkUpdate None None (Some (Some false))) ;;
    ret (incPuppeteerFailed stats).

(** The branch [if (needsCheerio) { ... }]. *)
Definition cheerioBranch (article : Article.t) (url : string)
    (existingContent : option ArticleContent.t) (stats : ScrapingStats)
    : M ScrapingStats :=
  result <- scrapeArticleContentWithCheerio url ;;
  if succeeded result then
    match existingContent with
    | Some c => update c (mkUpdate (Some (contentOf result)) (Some (Some true)) None)
    | None => create (Article.id article) (contentOf result) (Some true) None
    end ;;
    ret (incCheerioSuccess stats)
  else
    match existingContent with
    | Some c => update c (mkUpdate None (Some (Some false)) None)
    | None => create (Article.id article) "" (Some false) None
    end ;;
    cascadeToPuppeteer article url existingContent (incCheerioFailed stats).

(** The branch [else if (needsPuppeteer) { ... }]; [existingContent] is a
    record there, and a [null] one would make [.update] throw. *)
Definition puppeteerBranch (url : string)
    (existingContent : option ArticleContent.t) (stats : ScrapingStats)
    : M ScrapingStats :=
  result <- scrapeArticleContentWithPuppeteer url ;;
  match existingContent with
  | None => throw "TypeError: Cannot read properties of null (reading 'update')"
  | Some c =>
      if succeeded result then
        update c (mkUpdate (Some (contentOf result)) None (Some (Some true))) ;;
        ret (incPuppeteerSuccess stats)
      else
        update c (mkUpdate None None (Some (Some false))) ;;
        ret (incPuppeteerFailed stats)
  end.

(** One iteration of the [for] loop; [isLast] is [i = length - 1].  The
    [continue] of the no-URL skip also skips the delay. *)
Definition processArticle (article : Article.t) (isLast : bool)
    (stats : ScrapingStats) : M ScrapingStats :=
  match Article.url article with
  | Some url =>
      if truthy url then
        let existingContent := existingContentOf article in
        stats1 <-
          (if needsCheerioOf existingContent then
             cheerioBranch article url existingContent stats
           else if needsPuppeteerOf existingContent then
             puppeteerBranch url existingContent stats
           else ret stats) ;;
        (if isLast then ret tt else emit (EvDelay 1000)) ;;
        ret stats1
      else ret (incSkipped stats)
  | None => ret (incSkipped stats)
  end.

Fixpoint processArticles (filteredArticles : list Article.t)
    (stats : ScrapingStats) : M ScrapingStats :=
  match filteredArticles with
  | [] => ret stats
  | article :: rest =>
      stats1 <- processArticle article (match rest with [] => true | _ => false end) stats ;;
      processArticles rest stats1
  end.

Definition initialStats (n : nat) : ScrapingStats := mkStats n 0 0 0 0 0.

Definition summary (stats : ScrapingStats) : Event :=
  EvSummary stats
    (toFixed1 (successRate (cheerioSuccess stats + puppeteerSuccess stats) (total stats))).

(** The body of the [try] block of [main]. *)
Definition mainBody : M unit :=
  authenticate ;;
  articlesToScrape <- findAll ;;
  let filteredArticles := filter needsScraping articlesToScrape in
  let stats := initialStats (List.length filteredArticles) in
  if (total stats =? 0)%nat then emit EvNoArticles
  else
    stats1 <- processArticles filteredArticles stats ;;
    emit (summary stats1).

Definition main : M unit :=
  try_catch_finally mainBody
    (fun error => emit (EvFatal error) ;; process_exit 1)
    close.

(** [main().then(() => process.exit(0)).catch(() => process.exit(1))]. *)
Definition program : M unit :=
  fun w =>
    match main w with
    | (Val _, w1) => process_exit 0 w1
    | (Throw _, w1) => process_exit 1 w1
    | (Exited c, w1) => (Exited c, w1)
    end.

End Program.

(** A process start on a store: nothing connected, nothing traced. *)
Definition start (rows : list ArticleRow) (contents : list ArticleContent.t)
    (next : Z) : World :=
  mkWorld rows contents next false 0 [].

(** The next process start on the store a run left behind. *)
Definition restart (w : World) : World :=
  start (articles w) (articleContents w) (nextContentId w).

(** ** The success rate in exact arithmetic *)

(** How a value half-way between two tenths is rounded. *)
Inductive TieRule := TiesUp | TiesDown | TiesEven.

(** The exact quotient [totalSuccess / total * 100] rounded to one decimal
    place, in tenths: the nearest integer to [1000 * totalSuccess / total]. *)
Definition exactTenths (rule : TieRule) (totalSuccess total : nat) : Z :=
  let q := (1000 * Z.of_nat totalSuccess / Z.of_nat total)%Z in
  let r := ((1000 * Z.of_nat totalSuccess) mod Z.of_nat total)%Z in
  match (2 * r ?= Z.of_nat total)%Z with
  | Lt => q
  | Gt => (q + 1)%Z
  | Eq =>
      match rule with
      | TiesUp => (q + 1)%Z
      | TiesDown => q
      | TiesEven => if Z.even q then q else (q + 1)%Z
      end
  end.

Definition exactRate (rule : TieRule) (totalSuccess total : nat) : string :=
  show_tenths (exactTenths rule totalSuccess total).

(** The specification's reading of the summary: whatever rate a run
    reports is the exact rate rounded to one decimal place. *)
Definition reportsExactRate (rule : TieRule) : Prop :=
  forall env rows contents next st rate,
    In (EvSummary st rate) (trace (snd (program env (start rows contents next)))) ->
    rate = Some (exactRate rule (cheerioSuccess st + puppeteerSuccess st) (total st)).

(** ** Sample data *)

Module Samples.

Fixpoint text (n : nat) : string :=
  match n with
  | O => ""
  | S n => String "a"%char (text n)
  end.

(** A web where [http://static] serves two long paragraphs, [http://js]
    only renders in a browser, [http://down] refuses connections, and
    every other page is short. *)
Definition web (fault : nat -> bool) : Env :=
  mkEnv
    (fun url => if url =? "http://down" then Err "ECONNREFUSED" else Ok url)
    (fun data => if data =? "http://static" then Ok [text 150; ""; text 150]
                 else Ok [text 50])
    (fun url => if url =? "http://down" then Err "net::ERR_CONNECTION_REFUSED"
                else Ok tt)
    (fun url => if url =? "http://js" then Ok ([], text 600) else Ok ([text 10], "menu"))
    (fun _ => Ok tt)
    fault.

Definition healthy : nat -> bool := fun _ => false.

Definition env0 : Env := web healthy.

Definition failedOnce : ArticleContent.t :=
  ArticleContent.mk 10 5 "" (Some false) None.

Definition pending : Article.t :=
  Article.mk 5 None (Some "http://js") (Some [failedOnce]).

Definition fresh (id : Z) (url : string) : Article.t :=
  Article.mk id None (Some url) (Some []).

Definition row (url : string) (id : nat) : ArticleRow :=
  mkArticleRow (Z.of_nat id) None (Some url).

(** A table of [good] articles Cheerio can read followed by [bad] ones
    whose host is down. *)
Definition rows (good bad : nat) : list ArticleRow :=
  map (row "http://static") (seq 1 good) ++ map (row "http://down") (seq (S good) bad).

(** A store with one static page, one page that needs a browser, one
    unreachable page, and the record left by an earlier Cheerio failure. *)
Definition mixed : World :=
  start [row "http://static" 1; row "http://js" 2; row "http://down" 3;
         row "http://js" 5]
        [failedOnce] 11.

End Samples.

(** ** Observers used to state the properties *)

(** An extraction attempt reaches the network. *)
Definition isExtraction (e : Event) : bool :=
  match e with
  | EvAxiosGet _ | EvPuppeteerGoto _ => true
  | _ => false
  end.

(** A persistence write. *)
Definition isWrite (e : Event) : bool :=
  match e with
  | EvCreate _ | EvUpdate _ _ => true
  | _ => false
  end.

(** The events an iteration of the loop can add to the trace. *)
Definition loopEvent (e : Event) : bool :=
  match e with
  | EvAxiosGet _ | EvPuppeteerGoto _ | EvCreate _ | EvUpdate _ _
  | EvFindOne _ | EvDelay _ => true
  | _ => false
  end.

(** An article is resolved when Cheerio succeeded, or Cheerio failed and
    Puppeteer has been tried (with either result). *)
Definition resolved (a : Article.t) : bool :=
  match existingContentOf a with
  | None => false
  | Some c =>
      match ArticleContent.scrapeStatusCheerio c, ArticleContent.scrapeStatusPuppeteer c with
      | Some true, _ => true
      | Some false, Some _ => true
      | _, _ => false
      end
  end.

(** The population as [findAll] sees it in a store. *)
Definition population (w : World) : list Article.t :=
  map (joined (articleContents w)) (articles w).

Definition fullyResolved (w : World) : bool := forallb resolved (population w).

(** The articles counted with a final outcome. *)
Definition accounted (s : ScrapingStats) : nat :=
  skipped s + cheerioSuccess s + puppeteerSuccess s + puppeteerFailed s.

(** The events of a run that precede its summary. *)
Definition passEvent (e : Event) : bool :=
  match e with
  | EvAuthenticate | EvFindAll => true
  | _ => loopEvent e
  end.

(** The articles a pass over the store selects. *)
Definition selected (w : World) : list Article.t :=
  filter needsScraping (population w).

(** ** Predicates on runs *)

(** [wp m Q w]: running [m] from [w] ends in an outcome and a world that
    satisfy [Q]. *)
Definition wp {A} (m : M A) (Q : Outcome A -> World -> Prop) (w : World) : Prop :=
  Q (fst (m w)) (snd (m w)).

Definition continue {A B} (k : A -> M B) (Q : Outcome B -> World -> Prop)
    (r : Outcome A) (w : World) : Prop :=
  match r with
  | Val a => wp (k a) Q w
  | Throw e => Q (Throw e) w
  | Exited c => Q (Exited c) w
  end.

(** [w1] is [w] after the loop added the events [evs]: the connection and
    the [Articles] table are as they were. *)
Definition extends (w : World) (evs : list Event) (w1 : World) : Prop :=
  trace w1 = (trace w ++ evs)%list /\ forallb loopEvent evs = true
  /\ connected w1 = connected w /\ articles w1 = articles w.

Section Posts.

Variable env : Env.

(** After one iteration: a returned [stats] counts a selected article once,
    only a persistence fault throws, and the process is not exited. *)
Definition iterationPost (a : Article.t) (st : ScrapingStats) (w : World)
    (r : Outcome ScrapingStats) (w1 : World) : Prop :=
  (exists evs, extends w evs w1)
  /\ match r with
     | Val st1 => total st1 = total st
                  /\ (needsScraping a = true -> accounted st1 = S (accounted st))
     | Throw _ => exists n, dbFault env n = true
     | Exited _ => False
     end.

Definition passPost (l : list Article.t) (st : ScrapingStats) (w : World)
    (r : Outcome ScrapingStats) (w1 : World) : Prop :=
  (exists evs, extends w evs w1)
  /\ match r with
     | Val st1 => total st1 = total st
                  /\ (forallb needsScraping l = true ->
                      accounted st1 = accounted st + List.length l)
     | Throw _ => exists n, dbFault env n = true
     | Exited _ => False
     end.

(** What the [try] block of [main] leaves behind, from [w]: a pass that
    returns has reported nothing to do or its final statistics; only a
    persistence fault throws. *)
Definition bodyPost (w : World) (r : Outcome unit) (w1 : World) : Prop :=
  match r with
  | Val _ =>
      (selected w = []
       /\ trace w1 = (trace w ++ [EvAuthenticate; EvFindAll; EvNoArticles])%list)
      \/ (selected w <> []
          /\ exists pre st1,
              trace w1 = (trace w ++ pre ++ [summary st1])%list
              /\ forallb passEvent pre = true
              /\ total st1 = List.length (selected w)
              /\ accounted st1 = List.length (selected w))
  | Throw _ =>
      (exists pre, trace w1 = (trace w ++ pre)%list /\ forallb passEvent pre = true)
      /\ exists n, dbFault env n = true
  | Exited _ => False
  end.

(** How a run ends once the [try] block is left: the connection is closed
    and the process exits with 0, or closing fails and it exits with 1. *)
Definition closing (r : Outcome unit) (tail : list Event) : Prop :=
  (tail = [EvClose; EvExit 0] /\ r = Exited 0)
  \/ (tail = [EvExit 1] /\ r = Exited 1 /\ exists n, dbFault env n = true).

(** The shapes of the trace a whole run adds to [w]. *)
Definition programPost (w : World) (r : Outcome unit) (w1 : World) : Prop :=
  (exists e pre,
      trace w1 = (trace w ++ pre ++ [EvFatal e; EvExit 1])%list
      /\ forallb passEvent pre = true
      /\ r = Exited 1 /\ exists n, dbFault env n = true)
  \/ (selected w = []
      /\ exists tail,
          trace w1 = (trace w ++ [EvAuthenticate; EvFindAll; EvNoArticles] ++ tail)%list
          /\ closing r tail)
  \/ (selected w <> []
      /\ exists pre st1 tail,
          trace w1 = (trace w ++ pre ++ [summary st1] ++ tail)%list
          /\ forallb passEvent pre = true
          /\ total st1 = List.length (selected w)
          /\ accounted st1 = List.length (selected w)
          /\ closing r tail).

End Posts.

(** ** Observers of the store and of the added events *)

(** The events [w1] holds beyond those of [w]. *)
Definition since (w w1 : World) : list Event :=
  skipn (List.length (trace w)) (trace w1).

Definition isDelay (e : Event) : bool :=
  match e with
  | EvDelay _ => true
  | _ => false
  end.

Definition isCreate (e : Event) : bool :=
  match e with
  | EvCreate _ => true
  | _ => false
  end.

(** [article.url] is truthy. *)
Definition hasUrl (a : Article.t) : bool := truthy_opt (Article.url a).

(** A record no later pass works on: see [resolved]. *)
Definition resolvedRow (c : ArticleContent.t) : bool :=
  match ArticleContent.scrapeStatusCheerio c, ArticleContent.scrapeStatusPuppeteer c with
  | Some true, _ => true
  | Some false, Some _ => true
  | _, _ => false
  end.

(** The first row of an article in the store: what [findOne] returns and
    what [ArticleContents[0]] is after [findAll]. *)
Definition firstRecord (rows : list ArticleContent.t) (articleId : Z)
    : option ArticleContent.t :=
  find (fun c => ArticleContent.articleId c =? articleId)%Z rows.

(** A row after some writes: same identity, and no status back to [null]. *)
Definition keeps (old new : ArticleContent.t) : Prop :=
  ArticleContent.id new = ArticleContent.id old
  /\ ArticleContent.articleId new = ArticleContent.articleId old
  /\ (ArticleContent.scrapeStatusCheerio old <> None ->
      ArticleContent.scrapeStatusCheerio new <> None)
  /\ (ArticleContent.scrapeStatusPuppeteer old <> None ->
      ArticleContent.scrapeStatusPuppeteer new <> None).

(** The same, and a resolved row is still resolved. *)
Definition settles (old new : ArticleContent.t) : Prop :=
  keeps old new /\ (resolvedRow old = true -> resolvedRow new = true).

(** [rows'] holds a row for each row of [rows], in the same order and
    related by [R], followed by the rows that were added. *)
Definition evolves (R : ArticleContent.t -> ArticleContent.t -> Prop)
    (rows rows' : list ArticleContent.t) : Prop :=
  exists kept added, rows' = (kept ++ added)%list /\ Forall2 R rows kept.

(** A write stores the empty placeholder or an accepted text. *)
Definition acceptedWrite (e : Event) : Prop :=
  match e with
  | EvCreate row =>
      ArticleContent.content row = ""%string
      \/ 200 <= String.length (ArticleContent.content row)
  | EvUpdate _ v =>
      match set_content v with
      | Some s => 200 <= String.length s
      | None => True
      end
  | _ => True
  end.

(** The world in which the loop of [main] starts: connected, with the two
    queries done. *)
Definition afterFindAll (w : World) : World :=
  log EvFindAll (bump (log EvAuthenticate (set_connected true (bump w)))).

(** The article has no record yet. *)
Definition hasNoRecord (a : Article.t) : bool :=
  match existingContentOf a with
  | None => true
  | Some _ => false
  end.

(** Everything one iteration does, besides the counters: the requests it
    makes, the rows it creates, what it writes, what becomes of the store
    and whether it ends with the delay. *)
Definition iterationEffects (a : Article.t) (isLast : bool) (w : World)
    (r : Outcome ScrapingStats) (w1 : World) : Prop :=
  exists evs,
    trace w1 = (trace w ++ evs)%list
    /\ (filter isExtraction evs = []
        \/ exists url,
             Article.url a = Some url
             /\ In (filter isExtraction evs)
                  [[EvAxiosGet url]; [EvAxiosGet url; EvPuppeteerGoto url];
                   [EvPuppeteerGoto url]])
    /\ (hasUrl a = true -> needsScraping a = true -> filter isExtraction evs <> [])
    /\ (existingContentOf a <> None -> filter isCreate evs = [])
    /\ List.length (filter isCreate evs) <= 1
    /\ Forall acceptedWrite evs
    /\ forallb loopEvent evs = true
    /\ evolves keeps (articleContents w) (articleContents w1)
    /\ articles w1 = articles w
    /\ match r with
       | Val _ => List.length (filter isDelay evs)
                  = if hasUrl a && negb isLast then 1 else 0
       | Throw _ => filter isDelay evs = []
       | Exited _ => False
       end.

(** The same for a pass over the articles [l]. *)
Definition passEffects (l : list Article.t) (w : World)
    (r : Outcome ScrapingStats) (w1 : World) : Prop :=
  exists evs,
    trace w1 = (trace w ++ evs)%list
    /\ List.length (filter isExtraction evs) <= 2 * List.length l
    /\ List.length (filter isCreate evs) <= List.length (filter hasNoRecord l)
    /\ Forall acceptedWrite evs
    /\ forallb loopEvent evs = true
    /\ evolves keeps (articleContents w) (articleContents w1)
    /\ articles w1 = articles w
    /\ match r with
       | Val _ => List.length (filter isDelay evs)
                  = List.length (filter hasUrl (removelast l))
       | Throw _ => True
       | Exited _ => False
       end.

(** The snapshot of [a] taken by [findAll] still points at the first record
    of the article in the store [rows]. *)
Definition linked (a : Article.t) (rows : list ArticleContent.t) : Prop :=
  match existingContentOf a with
  | Some c =>
      exists c', firstRecord rows (Article.id a) = Some c'
                 /\ ArticleContent.id c' = ArticleContent.id c
                 /\ (ArticleContent.scrapeStatusCheerio c <> None ->
                     ArticleContent.scrapeStatusCheerio c' <> None)
  | None => firstRecord rows (Article.id a) = None
  end.

(** The first record of the article [articleId] in [rows] is resolved. *)
Definition firstResolved (rows : list ArticleContent.t) (articleId : Z) : Prop :=
  exists c, firstRecord rows articleId = Some c /\ resolvedRow c = true.

(** An iteration that went through: it returned, resolved rows are still
    resolved, the article is resolved, and no other article got a row. *)
Definition settledPost (a : Article.t) (w : World)
    (r : Outcome ScrapingStats) (w1 : World) : Prop :=
  (exists st1, r = Val st1)
  /\ evolves settles (articleContents w) (articleContents w1)
  /\ firstResolved (articleContents w1) (Article.id a)
  /\ (forall i, i <> Article.id a ->
        firstRecord (articleContents w) i = None ->
        firstRecord (articleContents w1) i = None).

(** The selected articles by what the loop does with them. *)
Definition triesCheerio (a : Article.t) : bool :=
  hasUrl a && needsCheerioOf (existingContentOf a).

Definition resumesWithPuppeteer (a : Article.t) : bool :=
  hasUrl a && needsPuppeteerOf (existingContentOf a).

(** The counters after some iterations over the articles [l], from [st]. *)
Definition counted (l : list Article.t) (st st1 : ScrapingStats) : Prop :=
  total st1 = total st
  /\ skipped st1 = skipped st + List.length (filter (fun a => negb (hasUrl a)) l)
  /\ cheerioSuccess st1 + cheerioFailed st1
     = cheerioSuccess st + cheerioFailed st + List.length (filter triesCheerio l)
  /\ puppeteerSuccess st1 + puppeteerFailed st1 + cheerioFailed st
     = puppeteerSuccess st + puppeteerFailed st + cheerioFailed st1
       + List.length (filter resumesWithPuppeteer l).

(** ** More sample data *)

Module MoreSamples.

(** Two articles the loop skips: no URL, and an empty one. *)
Definition unlinked : list Article.t :=
  [Article.mk 7 None None (Some []); Article.mk 8 None (Some ""%string) (Some [])].

End MoreSamples.

(** ** Observers of the outcome of an attempt *)

(** Whether an attempt passes the test the loop applies to its result,
    [result.success && result.content].  An attempt reads nothing of the
    world it runs in, so it is observed here on an empty store. *)
Definition attemptSucceeds (attempt : M ScrapeResult.t) : bool :=
  match fst (attempt (start [] [] 0)) with
  | Val result => succeeded result
  | _ => false
  end.

Definition cheerioSucceeds (env : Env) (a : Article.t) : bool :=
  match Article.url a with
  | Some url => attemptSucceeds (scrapeArticleContentWithCheerio env url)
  | None => false
  end.

Definition puppeteerSucceeds (env : Env) (a : Article.t) : bool :=
  match Article.url a with
  | Some url => attemptSucceeds (scrapeArticleContentWithPuppeteer env url)
  | None => false
  end.

(** The selected articles by how the pass ends for them: Cheerio is tried
    and succeeds; Cheerio is tried and fails, so that the cascade runs;
    the article comes to Puppeteer, through the cascade or as a resume. *)
Definition endsWithCheerio (env : Env) (a : Article.t) : bool :=
  triesCheerio a && cheerioSucceeds env a.

Definition cascades (env : Env) (a : Article.t) : bool :=
  triesCheerio a && negb (cheerioSucceeds env a).

Definition endsWithPuppeteer (env : Env) (a : Article.t) : bool :=
  hasUrl a && negb (endsWithCheerio env a).

(** The counters after a pass over the selected articles [l], from [st]:
    each one has grown by the number of articles with its outcome. *)
Definition tallied (env : Env) (l : list Article.t) (st st1 : ScrapingStats) : Prop :=
  total st1 = total st
  /\ skipped st1 = skipped st + List.length (filter (fun a => negb (hasUrl a)) l)
  /\ cheerioSuccess st1
     = cheerioSuccess st + List.length (filter (endsWithCheerio env) l)
  /\ cheerioFailed st1 = cheerioFailed st + List.length (filter (cascades env) l)
  /\ puppeteerSuccess st1
     = puppeteerSuccess st
       + List.length (filter (fun a => endsWithPuppeteer env a && puppeteerSucceeds env a) l)
  /\ puppeteerFailed st1
     = puppeteerFailed st
       + List.length
           (filter (fun a => endsWithPuppeteer env a && negb (puppeteerSucceeds env a)) l).

(** * Properties *)

Local Open Scope list_scope.

(** ** The selector *)

Section Selector.

Import ArticleContent.

(** The filter callback decides on the first record alone. *)
Lemma needsScraping_existing (a : Article.t) :
  needsScraping a =
  match existingContentOf a with
  | None => true
  | Some c =>
      is_null (scrapeStatusCheerio c)
      || (is_false (scrapeStatusCheerio c) && is_null (scrapeStatusPuppeteer c))
  end.
Proof.
  unfold needsScraping, existingContentOf.
  destruct (Article.ArticleContents a) as [[|c l]|]; try reflexivity.
  destruct (scrapeStatusCheerio c) as [[|]|], (scrapeStatusPuppeteer c) as [[|]|];
    reflexivity.
Qed.

(** C1.  An article of the population is kept by the filter exactly when
    it has no record, or the Cheerio status of its record is [null], or
    that status is [false] while the Puppeteer status is [null]; a record
    whose Cheerio status is [true], and a record with both statuses
    [false], exclude the article. *)
Theorem selector_inclusion (population : list Article.t) (a : Article.t) :
  In a population ->
  (In a (filter needsScraping population) <->
     existingContentOf a = None
     \/ exists c, existingContentOf a = Some c
          /\ (scrapeStatusCheerio c = None
              \/ (scrapeStatusCheerio c = Some false
                  /\ scrapeStatusPuppeteer c = None)))
  /\ (forall c, existingContentOf a = Some c ->
        scrapeStatusCheerio c = Some true ->
        ~ In a (filter needsScraping population))
  /\ (forall c, existingContentOf a = Some c ->
        scrapeStatusCheerio c = Some false ->
        scrapeStatusPuppeteer c = Some false ->
        ~ In a (filter needsScraping population)).
Proof.
  intros Hin. rewrite filter_In, needsScraping_existing.
  split; [split|split].
  - intros [_ H]. destruct (existingContentOf a) as [c|]; [right|now left].
    exists c. split; [reflexivity|].
    destruct (scrapeStatusCheerio c) as [[|]|]; [discriminate| |now left].
    destruct (scrapeStatusPuppeteer c) as [[|]|]; try discriminate. now right.
  - intros [H|[c [H [Hc|[Hc Hp]]]]]; rewrite H; split; trivial.
    + now rewrite Hc.
    + now rewrite Hc, Hp.
  - intros c H Hc Hn. apply filter_In in Hn. destruct Hn as [_ Hn].
    rewrite needsScraping_existing, H, Hc in Hn. discriminate.
  - intros c H Hc Hp Hn. apply filter_In in Hn. destruct Hn as [_ Hn].
    rewrite needsScraping_existing, H, Hc, Hp in Hn. discriminate.
Qed.

End Selector.

(** ** The extraction strategies *)

Section Strategies.

Variable env : Env.

Lemma checkLength_short (content : string) :
  String.length content < 200 -> checkLength content = contentTooShort content.
Proof.
  intros H. unfold checkLength.
  apply Nat.ltb_lt in H. rewrite H, orb_true_r. reflexivity.
Qed.

Lemma checkLength_long (content : string) :
  200 <= String.length content ->
  checkLength content = ScrapeResult.mk true (Some content) None.
Proof.
  intros H. unfold checkLength.
  destruct content as [|c s]; [simpl in H; lia|].
  apply Nat.ltb_ge in H. rewrite H. reflexivity.
Qed.

(** A Cheerio attempt is one request; its result depends on the URL alone
    and is always returned, never thrown. *)
Lemma cheerio_returns (url : string) :
  exists result, forall w,
    scrapeArticleContentWithCheerio env url w = (Val result, log (EvAxiosGet url) w).
Proof.
  unfold scrapeArticleContentWithCheerio, try_catch, bind, emit, answer, ret, throw, caught.
  destruct (axios_get env url) as [data|e]; [|eexists; intros; reflexivity].
  destruct (cheerio_paragraphs env data) as [texts|e]; eexists; intros; reflexivity.
Qed.

Lemma puppeteer_returns (url : string) :
  exists result, forall w,
    scrapeArticleContentWithPuppeteer env url w
    = (Val result, log (EvPuppeteerGoto url) w).
Proof.
  unfold scrapeArticleContentWithPuppeteer, try_catch, bind, emit, answer, ret, throw, caught.
  destruct (puppeteer_goto env url) as [[]|e]; [|eexists; intros; reflexivity].
  destruct (page_evaluate env url) as [dom|e]; [|eexists; intros; reflexivity].
  destruct (browser_close env url) as [[]|e]; eexists; intros; reflexivity.
Qed.

(** C4.  Whenever the fetch and the extraction go through, either strategy
    fails with the "Content too short" error on a text of fewer than 200
    characters and succeeds with the text itself from 200 characters on;
    199 fails and 200 succeeds in both. *)
Theorem content_length_threshold (url : string) (w : World) :
  (forall data texts,
     axios_get env url = Ok data ->
     cheerio_paragraphs env data = Ok texts ->
     let content := cheerioContent texts in
     (String.length content < 200 ->
      fst (scrapeArticleContentWithCheerio env url w)
      = Val (ScrapeResult.mk false None
               (Some ("Content too short (" ++ show_nat (String.length content)
                      ++ " chars, minimum 200)")%string)))
     /\ (200 <= String.length content ->
         fst (scrapeArticleContentWithCheerio env url w)
         = Val (ScrapeResult.mk true (Some content) None)))
  /\ (forall dom,
        puppeteer_goto env url = Ok tt ->
        page_evaluate env url = Ok dom ->
        browser_close env url = Ok tt ->
        let content := puppeteerContent dom in
        (String.length content < 200 ->
         fst (scrapeArticleContentWithPuppeteer env url w)
         = Val (ScrapeResult.mk false None
                  (Some ("Content too short (" ++ show_nat (String.length content)
                         ++ " chars, minimum 200)")%string)))
        /\ (200 <= String.length content ->
            fst (scrapeArticleContentWithPuppeteer env url w)
            = Val (ScrapeResult.mk true (Some content) None)))
  /\ (forall content,
        (String.length content = 199 ->
         checkLength content
         = ScrapeResult.mk false None
             (Some "Content too short (199 chars, minimum 200)"))
        /\ (String.length content = 200 ->
            checkLength content = ScrapeResult.mk true (Some content) None)).
Proof.
  split; [|split].
  - intros data texts Hget Hpar content.
    unfold scrapeArticleContentWithCheerio, try_catch, bind, emit, answer, ret.
    rewrite Hget, Hpar. fold content. split; intros H; simpl.
    + now rewrite checkLength_short.
    + now rewrite checkLength_long.
  - intros dom Hgo Hev Hcl content.
    unfold scrapeArticleContentWithPuppeteer, try_catch, bind, emit, answer, ret.
    rewrite Hgo, Hev, Hcl. fold content. split; intros H; simpl.
    + now rewrite checkLength_short.
    + now rewrite checkLength_long.
  - intros content. split; intros H.
    + rewrite checkLength_short by lia. unfold contentTooShort. now rewrite H.
    + apply checkLength_long. lia.
Qed.

(** C9.  An attempt of either strategy always returns a result object and
    throws nothing to the caller.  A request that fails, a parse or
    evaluation error and a browser that fails to close give
    [success = false] with the message of the fault; a text of fewer than
    200 characters (an empty extraction included) gives [success = false]
    with the "Content too short" error; every failure carries an error
    string; and [success = true] is returned only when nothing failed and
    the text has 200 characters or more. *)
Theorem strategies_never_throw (url : string) (w : World) :
  (exists result w1,
     scrapeArticleContentWithCheerio env url w = (Val result, w1)
     /\ (ScrapeResult.success result = false ->
         exists message, ScrapeResult.error result = Some message)
     /\ (forall message, axios_get env url = Err message ->
         result = ScrapeResult.mk false None (Some message))
     /\ (forall data message, axios_get env url = Ok data ->
         cheerio_paragraphs env data = Err message ->
         result = ScrapeResult.mk false None (Some message))
     /\ (forall data texts, axios_get env url = Ok data ->
         cheerio_paragraphs env data = Ok texts ->
         String.length (cheerioContent texts) < 200 ->
         result = ScrapeResult.mk false None
                    (Some ("Content too short ("
                           ++ show_nat (String.length (cheerioContent texts))
                           ++ " chars, minimum 200)")%string))
     /\ (ScrapeResult.success result = true ->
         exists data texts,
           axios_get env url = Ok data
           /\ cheerio_paragraphs env data = Ok texts
           /\ 200 <= String.length (cheerioContent texts)
           /\ result = ScrapeResult.mk true (Some (cheerioContent texts)) None))
  /\ (exists result w1,
        scrapeArticleContentWithPuppeteer env url w = (Val result, w1)
        /\ (ScrapeResult.success result = false ->
            exists message, ScrapeResult.error result = Some message)
        /\ (forall message, puppeteer_goto env url = Err message ->
            result = ScrapeResult.mk false None (Some message))
        /\ (forall message, puppeteer_goto env url = Ok tt ->
            page_evaluate env url = Err message ->
            result = ScrapeResult.mk false None (Some message))
        /\ (forall dom message, puppeteer_goto env url = Ok tt ->
            page_evaluate env url = Ok dom ->
            browser_close env url = Err message ->
            result = ScrapeResult.mk false None (Some message))
        /\ (forall dom, puppeteer_goto env url = Ok tt ->
            page_evaluate env url = Ok dom ->
            browser_close env url = Ok tt ->
            String.length (puppeteerContent dom) < 200 ->
            result = ScrapeResult.mk false None
                       (Some ("Content too short ("
                              ++ show_nat (String.length (puppeteerContent dom))
                              ++ " chars, minimum 200)")%string))
        /\ (ScrapeResult.success result = true ->
            exists dom,
              puppeteer_goto env url = Ok tt
              /\ page_evaluate env url = Ok dom
              /\ browser_close env url = Ok tt
              /\ 200 <= String.length (puppeteerContent dom)
              /\ result = ScrapeResult.mk true (Some (puppeteerContent dom)) None)).
Proof.
  assert (Hcheck : forall content,
             (ScrapeResult.success (checkLength content) = false ->
              exists message, ScrapeResult.error (checkLength content) = Some message)
             /\ (String.length content < 200 ->
                 checkLength content
                 = ScrapeResult.mk false None
                     (Some ("Content too short (" ++ show_nat (String.length content)
                            ++ " chars, minimum 200)")%string))
             /\ (ScrapeResult.success (checkLength content) = true ->
                 200 <= String.length content
                 /\ checkLength content = ScrapeResult.mk true (Some content) None)).
  { intros content. split; [|split].
    - unfold checkLength, contentTooShort.
      destruct (_ || _); simpl; [eauto|discriminate].
    - apply checkLength_short.
    - destruct (Nat.lt_ge_cases (String.length content) 200) as [Hlt|Hge].
      + rewrite checkLength_short by assumption. discriminate.
      + intros _. split; [exact Hge|now apply checkLength_long]. }
  split.
  - unfold scrapeArticleContentWithCheerio, try_catch, bind, emit, answer, ret, throw, caught.
    destruct (axios_get env url) as [data|e].
    + destruct (cheerio_paragraphs env data) as [texts|e] eqn:Hpar.
      * destruct (Hcheck (cheerioContent texts)) as (Herr & Hshort & Hlong).
        do 2 eexists. split; [reflexivity|].
        repeat match goal with |- _ /\ _ => split end.
        -- exact Herr.
        -- discriminate.
        -- intros d m Hd. injection Hd as <-. rewrite Hpar. discriminate.
        -- intros d t Hd. injection Hd as <-. rewrite Hpar. intros [= <-]. exact Hshort.
        -- intros Hs. exists data, texts. destruct (Hlong Hs). auto.
      * do 2 eexists. split; [reflexivity|].
        repeat match goal with |- _ /\ _ => split end.
        -- simpl; eauto.
        -- discriminate.
        -- intros d m Hd. injection Hd as <-. rewrite Hpar. now intros [= <-].
        -- intros d t Hd. injection Hd as <-. rewrite Hpar. discriminate.
        -- discriminate.
    + do 2 eexists. split; [reflexivity|].
      repeat match goal with |- _ /\ _ => split end.
      * simpl; eauto.
      * now intros m [= <-].
      * discriminate.
      * discriminate.
      * discriminate.
  - unfold scrapeArticleContentWithPuppeteer, try_catch, bind, emit, answer, ret, throw, caught.
    destruct (puppeteer_goto env url) as [[]|e].
    + destruct (page_evaluate env url) as [dom|e].
      * destruct (browser_close env url) as [[]|e].
        -- destruct (Hcheck (puppeteerContent dom)) as (Herr & Hshort & Hlong).
           do 2 eexists. split; [reflexivity|].
           repeat match goal with |- _ /\ _ => split end.
           ++ exact Herr.
           ++ discriminate.
           ++ discriminate.
           ++ discriminate.
           ++ intros d _ [= <-] _. exact Hshort.
           ++ intros Hs. exists dom. destruct (Hlong Hs). auto.
        -- do 2 eexists. split; [reflexivity|].
           repeat match goal with |- _ /\ _ => split end.
           ++ simpl; eauto.
           ++ discriminate.
           ++ discriminate.
           ++ now intros d m _ _ [= <-].
           ++ discriminate.
           ++ discriminate.
      * do 2 eexists. split; [reflexivity|].
        repeat match goal with |- _ /\ _ => split end.
        -- simpl; eauto.
        -- discriminate.
        -- now intros m _ [= <-].
        -- discriminate.
        -- discriminate.
        -- discriminate.
    + do 2 eexists. split; [reflexivity|].
      repeat match goal with |- _ /\ _ => split end.
      * simpl; eauto.
      * now intros m [= <-].
      * discriminate.
      * discriminate.
      * discriminate.
      * discriminate.
Qed.

End Strategies.

(** ** The coordinator *)

Section Run.

Variable env : Env.

Lemma wp_bind {A B} (m : M A) (k : A -> M B) Q w :
  wp m (continue k Q) w -> wp (bind m k) Q w.
Proof.
  unfold wp, continue, bind. destruct (m w) as [[a|e|c] w1]; simpl; trivial.
Qed.

Lemma wp_ret {A} (a : A) (Q : Outcome A -> World -> Prop) w : Q (Val a) w -> wp (ret a) Q w.
Proof. trivial. Qed.

Lemma wp_emit e (Q : Outcome unit -> World -> Prop) w : Q (Val tt) (log e w) -> wp (emit e) Q w.
Proof. trivial. Qed.

Lemma wp_persistence {A} ev (op : World -> A * World) (Q : Outcome A -> World -> Prop) w :
  (dbFault env (dbOps w) = true -> Q (Throw "SequelizeConnectionError") (bump w)) ->
  (dbFault env (dbOps w) = false ->
   Q (Val (fst (op (bump w)))) (log ev (snd (op (bump w))))) ->
  wp (persistence env ev op) Q w.
Proof.
  unfold wp, persistence. intros Ht Hf.
  destruct (dbFault env (dbOps w)); [now apply Ht|].
  destruct (op (bump w)) as [a w1]. now apply Hf.
Qed.

Lemma wp_cheerio url :
  exists result, forall (Q : Outcome ScrapeResult.t -> World -> Prop) w,
    Q (Val result) (log (EvAxiosGet url) w) ->
    wp (scrapeArticleContentWithCheerio env url) Q w.
Proof.
  destruct (cheerio_returns env url) as [r Hr]. exists r. intros Q w H.
  unfold wp. now rewrite Hr.
Qed.

Lemma wp_puppeteer url :
  exists result, forall (Q : Outcome ScrapeResult.t -> World -> Prop) w,
    Q (Val result) (log (EvPuppeteerGoto url) w) ->
    wp (scrapeArticleContentWithPuppeteer env url) Q w.
Proof.
  destruct (puppeteer_returns env url) as [r Hr]. exists r. intros Q w H.
  unfold wp. now rewrite Hr.
Qed.

Lemma wp_throw {A} e (Q : Outcome A -> World -> Prop) w : Q (Throw e) w -> wp (throw e) Q w.
Proof. trivial. Qed.

Lemma wp_update c v (Q : Outcome unit -> World -> Prop) w :
  (dbFault env (dbOps w) = true -> Q (Throw "SequelizeConnectionError") (bump w)) ->
  (dbFault env (dbOps w) = false ->
   Q (Val tt)
     (log (EvUpdate (ArticleContent.id c) v)
        (set_contents (updateRows (ArticleContent.id c) v (articleContents w))
           (nextContentId w) (bump w)))) ->
  wp (update env c v) Q w.
Proof. intros Ht Hf. apply wp_persistence; trivial. Qed.

Lemma wp_create articleId content sc sp (Q : Outcome unit -> World -> Prop) w :
  (dbFault env (dbOps w) = true -> Q (Throw "SequelizeConnectionError") (bump w)) ->
  (dbFault env (dbOps w) = false ->
   let row := ArticleContent.mk (nextContentId w) articleId content sc sp in
   Q (Val tt)
     (log (EvCreate row)
        (set_contents (articleContents w ++ [row]) (nextContentId w + 1)%Z (bump w)))) ->
  wp (create env articleId content sc sp) Q w.
Proof. intros Ht Hf. unfold create. apply wp_persistence; trivial. Qed.

Lemma wp_findOne articleId (Q : Outcome (option ArticleContent.t) -> World -> Prop) w :
  (dbFault env (dbOps w) = true -> Q (Throw "SequelizeConnectionError") (bump w)) ->
  (dbFault env (dbOps w) = false ->
   Q (Val (find (fun c => ArticleContent.articleId c =? articleId)%Z (articleContents w)))
     (log (EvFindOne articleId) (bump w))) ->
  wp (findOne env articleId) Q w.
Proof. intros Ht Hf. apply wp_persistence; trivial. Qed.

Ltac wp_run Hc Hp :=
  repeat (cbn beta iota zeta delta [continue];
    match goal with
    | |- wp (bind _ _) _ _ => apply wp_bind
    | |- wp (ret _) _ _ => apply wp_ret
    | |- wp (emit _) _ _ => apply wp_emit
    | |- wp (throw _) _ _ => apply wp_throw
    | |- wp (scrapeArticleContentWithCheerio _ _) _ _ => apply Hc
    | |- wp (scrapeArticleContentWithPuppeteer _ _) _ _ => apply Hp
    | |- wp (update _ _ _) _ _ => apply wp_update; intros ?
    | |- wp (create _ _ _ _ _) _ _ => apply wp_create; intros ?
    | |- wp (findOne _ _) _ _ => apply wp_findOne; intros ?
    | |- wp (if ?b then _ else _) _ _ => destruct b eqn:?
    | |- wp (match ?x with _ => _ end) _ _ => destruct x eqn:?
    end).

Ltac close_extends :=
  first
    [ exists []; unfold extends; simpl; rewrite app_nil_r; repeat split; reflexivity
    | eexists; unfold extends; simpl; rewrite <- ?app_assoc; simpl;
      repeat split; reflexivity ].

Ltac close_post :=
  split;
  [ close_extends
  | simpl; unfold accounted; simpl; eauto;
    try (split; [reflexivity|intros; first [discriminate|lia]]) ].

Lemma processArticle_spec (a : Article.t) (isLast : bool) (st : ScrapingStats) (w : World) :
  wp (processArticle env a isLast st) (iterationPost env a st w) w.
Proof.
  unfold processArticle.
  destruct (Article.url a) as [url|].
  2:{ apply wp_ret. split; [exists []; unfold extends; rewrite app_nil_r; auto|].
      split; trivial. }
  destruct (truthy url).
  2:{ apply wp_ret. split; [exists []; unfold extends; rewrite app_nil_r; auto|].
      split; trivial. }
  destruct (wp_cheerio url) as [rc Hc], (wp_puppeteer url) as [rp Hp].
  unfold iterationPost. rewrite needsScraping_existing.
  unfold cheerioBranch, puppeteerBranch, cascadeToPuppeteer, contentRecordOf,
    updateIfFound, needsCheerioOf, needsPuppeteerOf.
  destruct (existingContentOf a) as [c|].
  - destruct (ArticleContent.scrapeStatusCheerio c) as [[|]|],
             (ArticleContent.scrapeStatusPuppeteer c) as [[|]|]; simpl;
    wp_run Hc Hp; close_post.
  - simpl. wp_run Hc Hp; close_post.
Qed.

Lemma extends_trans w evs1 w1 evs2 w2 :
  extends w evs1 w1 -> extends w1 evs2 w2 -> extends w (evs1 ++ evs2) w2.
Proof.
  intros (Ht1 & Hl1 & Hc1 & Ha1) (Ht2 & Hl2 & Hc2 & Ha2). repeat split.
  - now rewrite Ht2, Ht1, app_assoc.
  - now rewrite forallb_app, Hl1, Hl2.
  - congruence.
  - congruence.
Qed.

Lemma processArticles_spec (l : list Article.t) :
  forall st w, wp (processArticles env l st) (passPost env l st w) w.
Proof.
  induction l as [|a rest IH]; intros st w; simpl.
  - apply wp_ret. split; [exists []; unfold extends; rewrite app_nil_r; auto|].
    split; [reflexivity|intros _; simpl; lia].
  - pose proof (processArticle_spec a (match rest with [] => true | _ => false end) st w) as Ha.
    unfold wp, bind in Ha |- *.
    destruct (processArticle env a _ st w) as [[st1|e|c] w1]; simpl in *;
      destruct Ha as [[evs1 He1] Hr].
    + specialize (IH st1 w1). unfold wp in IH.
      destruct (processArticles env rest st1 w1) as [[st2|e|c] w2]; simpl in *;
        destruct IH as [[evs2 He2] Hr2].
      * split; [eexists; eapply extends_trans; eassumption|].
        destruct Hr as [Ht Hacc], Hr2 as [Ht2 Hacc2]. split; [congruence|].
        intros Hall. apply andb_prop in Hall. destruct Hall as [Hn Hall].
        rewrite Hacc2 by assumption. rewrite Hacc by assumption. simpl. lia.
      * split; [eexists; eapply extends_trans; eassumption|assumption].
      * contradiction.
    + split; [eexists; eassumption|assumption].
    + contradiction.
Qed.
(** *** One article *)

Ltac trace_eq := simpl; rewrite <- ?app_assoc; simpl; reflexivity.

Lemma updateRows_frame (id : Z) (v : UpdateValues) (rows : list ArticleContent.t) :
  Forall2
    (fun old new =>
       if (ArticleContent.id old =? id)%Z then new = applyValues v old else new = old)
    rows (updateRows id v rows).
Proof.
  induction rows as [|r rows IH]; simpl; constructor; trivial.
  destruct (ArticleContent.id r =? id)%Z; reflexivity.
Qed.

(** C2.  When an article with a URL needs Cheerio and the write that
    records the attempt goes through: after a Cheerio success the
    iteration ends with that write (and the delay), Puppeteer is not
    called, and the loop goes on with the next article; after a Cheerio
    failure the very next effect of the pass is the Puppeteer request on
    the same URL. *)
Theorem cascade_within_pass (a : Article.t) (rest : list Article.t)
    (st : ScrapingStats) (w : World) (url : string) :
  Article.url a = Some url ->
  truthy url = true ->
  needsCheerioOf (existingContentOf a) = true ->
  dbFault env (dbOps w) = false ->
  let isLast := match rest with [] => true | _ => false end in
  exists result write,
    (forall w0, scrapeArticleContentWithCheerio env url w0
                = (Val result, log (EvAxiosGet url) w0))
    /\ isWrite write = true
    /\ (succeeded result = true ->
        exists st1 w1,
          processArticle env a isLast st w = (Val st1, w1)
          /\ trace w1 = trace w ++ [EvAxiosGet url; write]
                        ++ (if isLast then [] else [EvDelay 1000])
          /\ processArticles env (a :: rest) st w = processArticles env rest st1 w1)
    /\ (succeeded result = false ->
        exists evs,
          trace (snd (processArticles env (a :: rest) st w))
          = trace w ++ [EvAxiosGet url; write; EvPuppeteerGoto url] ++ evs).
Proof.
  intros Hurl Htruthy Hneeds Hdb isLast.
  destruct (cheerio_returns env url) as [rc Hc].
  destruct (puppeteer_returns env url) as [rp Hp].
  exists rc.
  exists (match existingContentOf a, succeeded rc with
          | Some c, true =>
              EvUpdate (ArticleContent.id c)
                (mkUpdate (Some (contentOf rc)) (Some (Some true)) None)
          | Some c, false =>
              EvUpdate (ArticleContent.id c) (mkUpdate None (Some (Some false)) None)
          | None, true =>
              EvCreate (ArticleContent.mk (nextContentId w) (Article.id a)
                          (contentOf rc) (Some true) None)
          | None, false =>
              EvCreate (ArticleContent.mk (nextContentId w) (Article.id a)
                          "" (Some false) None)
          end).
  split; [exact Hc|]. split; [destruct (existingContentOf a), (succeeded rc); reflexivity|].
  split; intros Hs; rewrite Hs.
  - assert (Hrun : exists st1 w1,
               processArticle env a isLast st w = (Val st1, w1)
               /\ trace w1 = trace w ++ [EvAxiosGet url;
                    match existingContentOf a with
                    | Some c => EvUpdate (ArticleContent.id c)
                                  (mkUpdate (Some (contentOf rc)) (Some (Some true)) None)
                    | None => EvCreate (ArticleContent.mk (nextContentId w) (Article.id a)
                                          (contentOf rc) (Some true) None)
                    end] ++ (if isLast then [] else [EvDelay 1000])).
    { unfold processArticle. rewrite Hurl, Htruthy, Hneeds.
      unfold cheerioBranch, bind. rewrite Hc, Hs.
      destruct (existingContentOf a) as [c|]; unfold update, create, persistence, bind;
        simpl; rewrite Hdb; destruct isLast; simpl; do 2 eexists;
        (split; [reflexivity|trace_eq]). }
    destruct Hrun as (st1 & w1 & Hrun & Htrace). exists st1, w1.
    split; [exact Hrun|]. split; [exact Htrace|].
    simpl. unfold bind at 1. fold isLast. now rewrite Hrun.
  - set (write := match existingContentOf a with
                  | Some c => EvUpdate (ArticleContent.id c)
                                (mkUpdate None (Some (Some false)) None)
                  | None => EvCreate (ArticleContent.mk (nextContentId w) (Article.id a)
                                        "" (Some false) None)
                  end).
    assert (Hone : wp (processArticle env a isLast st)
              (fun _ w1 => exists evs,
                 trace w1 = trace w ++ [EvAxiosGet url; write; EvPuppeteerGoto url] ++ evs) w).
    { unfold processArticle. rewrite Hurl, Htruthy, Hneeds.
      assert (Hc' : forall (Q : Outcome ScrapeResult.t -> World -> Prop) w0,
                 Q (Val rc) (log (EvAxiosGet url) w0) ->
                 wp (scrapeArticleContentWithCheerio env url) Q w0)
        by (intros Q w0 H; unfold wp; now rewrite Hc).
      assert (Hp' : forall (Q : Outcome ScrapeResult.t -> World -> Prop) w0,
                 Q (Val rp) (log (EvPuppeteerGoto url) w0) ->
                 wp (scrapeArticleContentWithPuppeteer env url) Q w0)
        by (intros Q w0 H; unfold wp; now rewrite Hp).
      unfold cheerioBranch. apply wp_bind, wp_bind, Hc'. cbn [continue].
      rewrite Hs. unfold cascadeToPuppeteer, contentRecordOf, updateIfFound.
      subst write.
      destruct (existingContentOf a) as [c|]; simpl.
      - apply wp_bind, wp_update; [intros F; simpl in F; congruence|intros _].
        wp_run Hc Hp'; eexists; trace_eq.
      - apply wp_bind, wp_create; [intros F; simpl in F; congruence|intros _].
        wp_run Hc Hp'; eexists; trace_eq. }
    simpl. fold isLast. unfold wp in Hone. unfold bind.
    destruct (processArticle env a isLast st w) as [[st1|e|code] w1]; simpl in *; trivial.
    destruct Hone as [evs1 He1].
    pose proof (processArticles_spec rest st1 w1) as Hrest. unfold wp in Hrest.
    destruct Hrest as [[evs2 (He2 & _)] _].
    exists (evs1 ++ evs2). rewrite He2, He1. now rewrite <- !app_assoc.
Qed.


(** C7.  For an article whose record has Cheerio status [false] and
    Puppeteer status [null], an iteration never calls Cheerio; when the
    article has a URL and the write goes through, its effects are one
    Puppeteer request and one update of that record, which sets content
    and Puppeteer status on success and the Puppeteer status alone on
    failure: the Cheerio status of every row is kept, a failure keeps every
    content, and the rows of other records are untouched. *)
Theorem robust_only_resume (a : Article.t) (isLast : bool)
    (st : ScrapingStats) (w : World) (c : ArticleContent.t) :
  existingContentOf a = Some c ->
  ArticleContent.scrapeStatusCheerio c = Some false ->
  ArticleContent.scrapeStatusPuppeteer c = None ->
  let w1 := snd (processArticle env a isLast st w) in
  (exists evs, trace w1 = trace w ++ evs /\ forall u, ~ In (EvAxiosGet u) evs)
  /\ forall url,
       Article.url a = Some url ->
       truthy url = true ->
       dbFault env (dbOps w) = false ->
       exists result,
         (forall w0, scrapeArticleContentWithPuppeteer env url w0
                     = (Val result, log (EvPuppeteerGoto url) w0))
         /\ let values :=
              if succeeded result
              then mkUpdate (Some (contentOf result)) None (Some (Some true))
              else mkUpdate None None (Some (Some false)) in
            trace w1 = trace w
                       ++ [EvPuppeteerGoto url; EvUpdate (ArticleContent.id c) values]
                       ++ (if isLast then [] else [EvDelay 1000])
            /\ Forall2
                 (fun old new =>
                    ArticleContent.scrapeStatusCheerio new
                    = ArticleContent.scrapeStatusCheerio old
                    /\ (succeeded result = false ->
                        ArticleContent.content new = ArticleContent.content old)
                    /\ (ArticleContent.id old = ArticleContent.id c ->
                        ArticleContent.scrapeStatusPuppeteer new
                        = Some (succeeded result)
                        /\ (succeeded result = true ->
                            ArticleContent.content new = contentOf result))
                    /\ (ArticleContent.id old <> ArticleContent.id c -> new = old))
                 (articleContents w) (articleContents w1).
Proof.
  intros Hc0 Hch Hpu w1. split.
  - assert (Hone : wp (processArticle env a isLast st)
              (fun _ w1 => exists evs,
                 trace w1 = trace w ++ evs /\ forall u, ~ In (EvAxiosGet u) evs) w).
    { unfold processArticle.
      destruct (Article.url a) as [url|];
        [destruct (truthy url)|];
        try (apply wp_ret; exists []; split; [now rewrite app_nil_r|intros u []]).
      destruct (wp_cheerio url) as [rc Hc], (wp_puppeteer url) as [rp Hp].
      rewrite Hc0. unfold needsCheerioOf, needsPuppeteerOf. rewrite Hch, Hpu. simpl.
      unfold puppeteerBranch.
      wp_run Hc Hp; eexists; (split; [trace_eq|]);
        simpl; intros u Hin; intuition discriminate. }
    exact Hone.
  - intros url Hurl Htruthy Hdb.
    destruct (puppeteer_returns env url) as [rp Hp].
    exists rp. split; [exact Hp|]. intros values.
    assert (Hrun : trace w1 = trace w
                     ++ [EvPuppeteerGoto url; EvUpdate (ArticleContent.id c) values]
                     ++ (if isLast then [] else [EvDelay 1000])
                   /\ articleContents w1
                      = updateRows (ArticleContent.id c) values (articleContents w)).
    { subst w1 values. unfold processArticle.
      rewrite Hurl, Htruthy, Hc0. unfold needsCheerioOf, needsPuppeteerOf.
      rewrite Hch, Hpu. simpl. unfold puppeteerBranch, bind. rewrite Hp.
      unfold update, persistence.
      destruct (succeeded rp); simpl; rewrite Hdb; destruct isLast; simpl;
        (split; [trace_eq|reflexivity]). }
    destruct Hrun as [Htrace Hrows]. split; [exact Htrace|].
    rewrite Hrows.
    eapply Forall2_impl; [|apply updateRows_frame].
    intros old new. subst values. cbv beta.
    destruct (ArticleContent.id old =? ArticleContent.id c)%Z eqn:Hid; intros ->.
    + apply Z.eqb_eq in Hid.
      destruct (succeeded rp); simpl;
        (repeat split; trivial; try discriminate; try contradiction).
    + apply Z.eqb_neq in Hid.
      repeat split; trivial; contradiction.
Qed.

(** The ways an iteration on a selected article bumps the counters. *)
(** *** The whole run *)

Lemma wp_conseq {A} (m : M A) (Q1 Q2 : Outcome A -> World -> Prop) w :
  wp m Q1 w -> (forall r w1, Q1 r w1 -> Q2 r w1) -> wp m Q2 w.
Proof. unfold wp. auto. Qed.

Lemma forallb_filter {A} (f : A -> bool) (l : list A) : forallb f (filter f l) = true.
Proof.
  induction l as [|x l IH]; simpl; trivial.
  destruct (f x) eqn:Hx; simpl; trivial. now rewrite Hx.
Qed.

Lemma loopEvent_passEvent (evs : list Event) :
  forallb loopEvent evs = true -> forallb passEvent evs = true.
Proof.
  induction evs as [|e evs IH]; simpl; trivial.
  intros H. apply andb_prop in H. destruct H as [He H].
  rewrite IH by assumption. destruct e; simpl in *; trivial.
Qed.

Lemma mainBody_spec (w : World) : wp (mainBody env) (bodyPost env w) w.
Proof.
  unfold mainBody, authenticate, findAll.
  apply wp_bind, wp_persistence; [intros F|intros _].
  { split; [exists []; now rewrite app_nil_r|eauto]. }
  cbn [continue fst snd]. apply wp_bind, wp_persistence; [intros F|intros _].
  { split; [exists [EvAuthenticate]; split; trivial|eauto]. }
  cbn [continue fst snd].
  change (map _ _) with (population w). fold (selected w).
  destruct (selected w) as [|a l] eqn:Hsel.
  - simpl. apply wp_emit. left. split; [exact Hsel|trace_eq].
  - cbn [initialStats total List.length Nat.eqb].
    apply wp_bind. eapply wp_conseq; [apply processArticles_spec|].
    intros [st1|e|c] w1 [[evs (Ht & Hl & _)] Hr]; cbn [continue]; try contradiction.
    + apply wp_emit. right. split; [rewrite Hsel; discriminate|].
      exists ([EvAuthenticate; EvFindAll] ++ evs), st1.
      destruct Hr as [Htot Hacc]. repeat split.
      * simpl. rewrite Ht. simpl. rewrite <- !app_assoc. reflexivity.
      * simpl. now apply loopEvent_passEvent.
      * rewrite Hsel. exact Htot.
      * rewrite Hsel, Hacc; [reflexivity|]. rewrite <- Hsel. apply forallb_filter.
    + split; [|exact Hr]. exists ([EvAuthenticate; EvFindAll] ++ evs). split.
      * rewrite Ht. simpl. rewrite <- !app_assoc. reflexivity.
      * simpl. now apply loopEvent_passEvent.
Qed.

Lemma program_spec (w : World) : wp (program env) (programPost env w) w.
Proof.
  pose proof (mainBody_spec w) as Hbody.
  unfold wp, program, main, try_catch_finally, and_finally, close, persistence in *.
  destruct (mainBody env w) as [[[]|e|c] w1]; simpl in *; try contradiction.
  - destruct (dbFault env (dbOps w1)) eqn:F; simpl;
      (destruct Hbody as [[Hsel Ht]|[Hsel (pre & st1 & Ht & Hp & Htot & Hacc)]];
       [right; left; split; [exact Hsel|]
       |right; right; split; [exact Hsel|exists pre, st1]]).
    + exists [EvExit 1]. split; [simpl; rewrite Ht; trace_eq|right; eauto].
    + exists [EvExit 1]. split; [simpl; rewrite Ht; trace_eq|]. repeat split; trivial.
      right; eauto.
    + exists [EvClose; EvExit 0]. split; [simpl; rewrite Ht; trace_eq|now left].
    + exists [EvClose; EvExit 0]. split; [simpl; rewrite Ht; trace_eq|].
      repeat split; trivial. now left.
  - destruct Hbody as [(pre & Ht & Hp) Hf]. left. exists e, pre.
    split; [simpl; rewrite Ht; trace_eq|]. repeat split; trivial.
Qed.

Lemma passEvent_not_summary (pre : list Event) st rate :
  forallb passEvent pre = true -> ~ In (EvSummary st rate) pre.
Proof.
  intros Hall Hin. rewrite forallb_forall in Hall.
  apply Hall in Hin. discriminate.
Qed.

(** A summary in the trace of a run is the one of a completed pass. *)
Lemma summary_in_run (w : World) st rate :
  trace w = [] ->
  In (EvSummary st rate) (trace (snd (program env w))) ->
  selected w <> []
  /\ total st = List.length (selected w)
  /\ accounted st = List.length (selected w)
  /\ rate = toFixed1 (successRate (cheerioSuccess st + puppeteerSuccess st) (total st)).
Proof.
  intros Hnil Hin. pose proof (program_spec w) as Hrun. unfold wp, programPost, closing in Hrun.
  rewrite Hnil in Hrun. simpl in Hrun.
  destruct Hrun as [(e & pre & Ht & Hp & _)
                   |[(Hsel & tail & Ht & Hcl)
                    |(Hsel & pre & st1 & tail & Ht & Hp & Htot & Hacc & Hcl)]];
    rewrite Ht in Hin.
  - apply in_app_or in Hin. destruct Hin as [Hin|Hin].
    + now apply passEvent_not_summary in Hin.
    + simpl in Hin. intuition discriminate.
  - destruct Hcl as [[-> _]|[-> _]]; simpl in Hin; intuition discriminate.
  - apply in_app_or in Hin. destruct Hin as [Hin|[Hin|Hin]].
    + now apply passEvent_not_summary in Hin.
    + unfold summary in Hin. injection Hin as <- <-. auto.
    + destruct Hcl as [[-> _]|[-> _]]; simpl in Hin; intuition discriminate.
Qed.

(** Without persistence faults a pass over a non-empty selection runs to
    its summary, closes the connection and exits with 0. *)
Lemma pass_completes (w : World) :
  trace w = [] ->
  selected w <> [] ->
  (forall n, dbFault env n = false) ->
  exists pre st,
    trace (snd (program env w)) = pre ++ [summary st; EvClose; EvExit 0]
    /\ fst (program env w) = Exited 0.
Proof.
  intros Hnil Hsel Hok. pose proof (program_spec w) as Hrun. unfold wp, programPost, closing in Hrun.
  rewrite Hnil in Hrun. simpl in Hrun.
  destruct Hrun as [(e & pre & _ & _ & _ & n & Hn)
                   |[(Hsel' & _)
                    |(_ & pre & st1 & tail & Ht & _ & _ & _ & Hcl)]].
  - rewrite Hok in Hn. discriminate.
  - contradiction.
  - destruct Hcl as [[-> Hr]|(_ & _ & n & Hn)].
    + exists pre, st1. split; assumption.
    + rewrite Hok in Hn. discriminate.
Qed.

(** A run that selects nothing: no extraction, no write, the store as it
    was, whatever the persistence faults. *)
Lemma noop_run (w : World) :
  selected w = [] ->
  exists evs,
    trace (snd (program env w)) = trace w ++ evs
    /\ filter isExtraction evs = []
    /\ filter isWrite evs = []
    /\ forallb (fun e => match e with EvSummary _ _ => false | _ => true end) evs = true
    /\ articleContents (snd (program env w)) = articleContents w
    /\ ((forall n, dbFault env n = false) ->
        evs = [EvAuthenticate; EvFindAll; EvNoArticles; EvClose; EvExit 0]
        /\ fst (program env w) = Exited 0).
Proof.
  intros Hsel. unfold selected, population in Hsel.
  unfold program, main, try_catch_finally, and_finally, mainBody, authenticate,
    findAll, close, persistence, bind, emit, process_exit.
  destruct (dbFault env (dbOps w)) eqn:F0; simpl.
  { eexists. split; [trace_eq|].
    repeat match goal with |- _ /\ _ => split end; try reflexivity.
    intros Hok. rewrite Hok in F0. discriminate. }
  destruct (dbFault env (S (dbOps w))) eqn:F1; simpl.
  { eexists. split; [trace_eq|].
    repeat match goal with |- _ /\ _ => split end; try reflexivity.
    intros Hok. rewrite Hok in F1. discriminate. }
  rewrite Hsel. simpl.
  destruct (dbFault env (S (S (dbOps w)))) eqn:F2; simpl.
  { eexists. split; [trace_eq|].
    repeat match goal with |- _ /\ _ => split end; try reflexivity.
    intros Hok. rewrite Hok in F2. discriminate. }
  eexists. split; [trace_eq|].
  repeat match goal with |- _ /\ _ => split end; try reflexivity.
  intros _. split; reflexivity.
Qed.

Lemma resolved_not_selected (a : Article.t) : resolved a = true -> needsScraping a = false.
Proof.
  rewrite needsScraping_existing. unfold resolved.
  destruct (existingContentOf a) as [c|]; [|discriminate].
  destruct (ArticleContent.scrapeStatusCheerio c) as [[|]|],
           (ArticleContent.scrapeStatusPuppeteer c) as [[|]|];
    trivial; discriminate.
Qed.

Lemma fullyResolved_selected (w : World) : fullyResolved w = true -> selected w = [].
Proof.
  unfold fullyResolved, selected. induction (population w) as [|a l IH]; simpl; trivial.
  intros H. apply andb_prop in H. destruct H as [Ha Hl].
  rewrite (resolved_not_selected a Ha). auto.
Qed.

End Run.

(** ** Properties of whole runs *)

(** C3.  When the store a first run leaves behind has every article
    resolved (Cheerio succeeded, or Cheerio failed and Puppeteer succeeded
    or failed), a second run on that store makes no extraction attempt and
    no persistence write, and leaves every record as it was. *)
Theorem second_run_is_idle (env1 env2 : Env) (rows : list ArticleRow)
    (contents : list ArticleContent.t) (next : Z) :
  let w1 := snd (program env1 (start rows contents next)) in
  fullyResolved w1 = true ->
  let w2 := snd (program env2 (restart w1)) in
  filter isExtraction (trace w2) = []
  /\ filter isWrite (trace w2) = []
  /\ articleContents w2 = articleContents w1.
Proof.
  intros w1 Hres w2.
  assert (Hsel : selected (restart w1) = []) by now apply fullyResolved_selected.
  destruct (noop_run env2 (restart w1) Hsel) as (evs & Ht & He & Hw & _ & Hc & _).
  subst w2. rewrite Ht. simpl. auto.
Qed.

(** C5 on the code.  When the query for the articles fails after the
    connection is up, the [catch] block reports the error and exits the
    process with 1: the [finally] block never runs, so the trace holds no
    close and the connection is still open at exit. *)
Theorem fatal_exit_skips_close :
  let env := Samples.web (fun n => Nat.eqb n 1) in
  let w := start (Samples.rows 1 0) [] 1 in
  program env w
  = (Exited 1,
     mkWorld (articles w) [] 1 true 2
       [EvAuthenticate; EvFatal "SequelizeConnectionError"; EvExit 1])
  /\ connected (snd (program env w)) = true
  /\ ~ In EvClose (trace (snd (program env w))).
Proof.
  split; [reflexivity|]. split; [reflexivity|].
  simpl. intuition discriminate.
Qed.

(** The same on every run: once the [try] block throws, the process exits
    from the [catch] block in the world the throw left, plus the two
    events of that block. *)
Lemma thrown_body_exits_unclosed (env : Env) (w w1 : World) (e : string) :
  mainBody env w = (Throw e, w1) ->
  program env w = (Exited 1, log (EvExit 1) (log (EvFatal e) w1)).
Proof.
  intros Hbody. unfold program, main, try_catch_finally. rewrite Hbody. reflexivity.
Qed.

(** The paths that leave [main] normally do close the connection before
    the exit: a run that exits with 0 ends with the close and the exit. *)
Lemma normal_exit_closes (env : Env) (w : World) :
  fst (program env w) = Exited 0 ->
  exists evs, trace (snd (program env w)) = trace w ++ evs ++ [EvClose; EvExit 0].
Proof.
  intros Hexit. pose proof (program_spec env w) as Hrun. unfold wp, programPost, closing in Hrun.
  rewrite Hexit in Hrun.
  destruct Hrun as [(e & pre & _ & _ & Hr & _)
                   |[(_ & tail & Ht & Hcl)
                    |(_ & pre & st1 & tail & Ht & _ & _ & _ & Hcl)]].
  - discriminate.
  - destruct Hcl as [[-> _]|(_ & Hr & _)]; [|discriminate].
    exists [EvAuthenticate; EvFindAll; EvNoArticles]. exact Ht.
  - destruct Hcl as [[-> _]|(_ & Hr & _)]; [|discriminate].
    exists (pre ++ [summary st1]). rewrite Ht. now rewrite <- !app_assoc.
Qed.

(** [toFixed(1)] prints the tenth nearest to the double it is given, the
    larger one when the double is half-way. *)
Lemma nearest_tenths_rounds (m : positive) (e : Z) :
  match e with
  | Zneg p =>
      let d := (2 ^ Zpos p)%Z in
      (- d < 2 * (d * nearest_tenths m e - 10 * Zpos m) <= d)%Z
  | _ => nearest_tenths m e = (10 * Zpos m * 2 ^ e)%Z
  end.
Proof.
  destruct e as [|p|p]; try reflexivity.
  intros d. unfold nearest_tenths. fold d.
  assert (Hd : (0 < d)%Z) by (subst d; apply Z.pow_pos_nonneg; lia).
  pose proof (Z.div_mod (2 * (10 * Zpos m) + d) (2 * d) ltac:(lia)) as Hdiv.
  pose proof (Z.mod_pos_bound (2 * (10 * Zpos m) + d) (2 * d) ltac:(lia)) as Hmod.
  set (n := ((2 * (10 * Zpos m) + d) / (2 * d))%Z) in *.
  set (r := ((2 * (10 * Zpos m) + d) mod (2 * d))%Z) in *.
  lia.
Qed.

(** C8, as the code has it.  Every rate a run reports comes with the final
    statistics of a pass over at least one article and is
    [((cheerioSuccess + puppeteerSuccess) / total * 100).toFixed(1)]
    evaluated on doubles; a pass over a non-empty selection that meets no
    persistence fault does report it, right before the close and the exit;
    a run that selects nothing reports no rate at all; 3 successes out of
    4 are reported as 75.0. *)
Theorem reported_success_rate (env : Env) (rows : list ArticleRow)
    (contents : list ArticleContent.t) (next : Z) :
  let w := start rows contents next in
  let w1 := snd (program env w) in
  (forall st rate,
     In (EvSummary st rate) (trace w1) ->
     0 < total st
     /\ total st = List.length (selected w)
     /\ rate = toFixed1 (successRate (cheerioSuccess st + puppeteerSuccess st) (total st)))
  /\ (selected w <> [] ->
      (forall n, dbFault env n = false) ->
      exists pre st,
        trace w1 = pre ++ [summary st; EvClose; EvExit 0]
        /\ fst (program env w) = Exited 0)
  /\ (selected w = [] ->
      (forall st rate, ~ In (EvSummary st rate) (trace w1))
      /\ ((forall n, dbFault env n = false) ->
          trace w1 = [EvAuthenticate; EvFindAll; EvNoArticles; EvClose; EvExit 0]
          /\ fst (program env w) = Exited 0))
  /\ toFixed1 (successRate (2 + 1) 4) = Some "75.0"%string.
Proof.
  intros w w1. split; [|split; [|split]].
  - intros st rate Hin.
    destruct (summary_in_run env w st rate eq_refl Hin) as (Hsel & Htot & _ & Hrate).
    split; [|split; assumption].
    rewrite Htot. destruct (selected w); [contradiction|simpl; lia].
  - intros Hsel Hok. now apply pass_completes.
  - intros Hsel. split.
    + intros st rate Hin.
      now destruct (summary_in_run env w st rate eq_refl Hin) as (Hne & _).
    + intros Hok.
      destruct (noop_run env w Hsel) as (evs & Ht & _ & _ & _ & _ & Hdone).
      destruct (Hdone Hok) as [-> Hexit]. split; [exact Ht|exact Hexit].
  - reflexivity.
Qed.

(** An event found from the end of a trace is in the trace. *)
Lemma from_end_In {A} (l : list A) (n : nat) (x : A) :
  nth_error (rev l) n = Some x -> In x l.
Proof. intros H. apply in_rev. eapply nth_error_In. exact H. Qed.

(** C8 as the specification words it fails: 23 successes out of 80 are
    reported as 28.7, because the double [23 / 80 * 100] lies just below
    28.75, while the exact rate 28.75 rounds to 28.8 (ties up or to even);
    and 1 out of 16 is reported as 6.3 where rounding the tie 6.25 down
    gives 6.2.  No tie rule makes the reported rate the rounded exact rate. *)
Lemma reported_rate_is_not_exact_rate :
  ~ reportsExactRate TiesUp /\ ~ reportsExactRate TiesEven /\ ~ reportsExactRate TiesDown.
Proof.
  assert (H80 : In (EvSummary (mkStats 80 23 57 0 57 0) (Some "28.7"%string))
                  (trace (snd (program (Samples.web Samples.healthy)
                                 (start (Samples.rows 23 57) [] 1))))).
  { apply (from_end_In _ 2). vm_compute. reflexivity. }
  assert (H16 : In (EvSummary (mkStats 16 1 15 0 15 0) (Some "6.3"%string))
                  (trace (snd (program (Samples.web Samples.healthy)
                                 (start (Samples.rows 1 15) [] 1))))).
  { apply (from_end_In _ 2). vm_compute. reflexivity. }
  repeat split; intros Hclaim.
  - apply Hclaim in H80. vm_compute in H80. discriminate H80.
  - apply Hclaim in H80. vm_compute in H80. discriminate H80.
  - apply Hclaim in H16. vm_compute in H16. discriminate H16.
Qed.

(** ** Instances *)

Section Witnesses.

Import Samples.

Lemma selector_inclusion_witness :
  In pending [pending] /\ In pending (filter needsScraping [pending]).
Proof.
  split; [left; reflexivity|].
  apply (proj1 (selector_inclusion [pending] pending (or_introl eq_refl))).
  right. exists failedOnce. split; [reflexivity|]. right. split; reflexivity.
Defined.

Lemma cascade_within_pass_witness :
  let a := fresh 2 "http://js" in
  let w := start [row "http://js" 2] [] 1 in
  Article.url a = Some "http://js"%string
  /\ truthy "http://js" = true
  /\ needsCheerioOf (existingContentOf a) = true
  /\ dbFault env0 (dbOps w) = false
  /\ exists write evs,
       isWrite write = true
       /\ trace (snd (processArticles env0 [a] (initialStats 1) w))
          = trace w ++ [EvAxiosGet "http://js"; write; EvPuppeteerGoto "http://js"] ++ evs.
Proof.
  intros a w. repeat (split; [reflexivity|]).
  destruct (cascade_within_pass env0 a [] (initialStats 1) w "http://js"
              eq_refl eq_refl eq_refl eq_refl)
    as (result & write & Hc & Hw & _ & Hfail).
  exists write. specialize (Hc w). vm_compute in Hc. injection Hc as <-.
  destruct (Hfail eq_refl) as [evs He]. exists evs. split; [exact Hw|exact He].
Defined.

Lemma second_run_is_idle_witness :
  let w1 := snd (program env0 mixed) in
  let w2 := snd (program env0 (restart w1)) in
  fullyResolved w1 = true
  /\ filter isExtraction (trace w2) = []
  /\ filter isWrite (trace w2) = []
  /\ articleContents w2 = articleContents w1.
Proof.
  intros w1 w2. split; [vm_compute; reflexivity|].
  apply (second_run_is_idle env0 env0 (articles mixed) (articleContents mixed)
           (nextContentId mixed)).
  vm_compute. reflexivity.
Defined.

Lemma content_length_threshold_witness :
  let texts := [text 150; ""%string; text 150] in
  axios_get env0 "http://static" = Ok "http://static"%string
  /\ cheerio_paragraphs env0 "http://static" = Ok texts
  /\ 200 <= String.length (cheerioContent texts)
  /\ fst (scrapeArticleContentWithCheerio env0 "http://static" mixed)
     = Val (ScrapeResult.mk true (Some (cheerioContent texts)) None).
Proof.
  intros texts.
  assert (Hlen : 200 <= String.length (cheerioContent texts))
    by (apply Nat.leb_le; vm_compute; reflexivity).
  repeat (split; [first [reflexivity|exact Hlen]|]).
  exact (proj2 (proj1 (content_length_threshold env0 "http://static" mixed)
                  "http://static"%string texts eq_refl eq_refl) Hlen).
Defined.

Lemma strategies_never_throw_witness :
  axios_get env0 "http://down" = Err "ECONNREFUSED"%string
  /\ fst (scrapeArticleContentWithCheerio env0 "http://down" mixed)
     = Val (ScrapeResult.mk false None (Some "ECONNREFUSED"%string))
  /\ axios_get env0 "http://short" = Ok "http://short"%string
  /\ cheerio_paragraphs env0 "http://short" = Ok [text 50]
  /\ String.length (cheerioContent [text 50]) < 200
  /\ fst (scrapeArticleContentWithCheerio env0 "http://short" mixed)
     = Val (ScrapeResult.mk false None
              (Some "Content too short (50 chars, minimum 200)"%string)).
Proof.
  assert (Hlen : String.length (cheerioContent [text 50]) < 200)
    by (apply Nat.ltb_lt; vm_compute; reflexivity).
  split; [reflexivity|]. split; [|repeat (split; [first [reflexivity|exact Hlen]|])].
  - destruct (proj1 (strategies_never_throw env0 "http://down" mixed))
      as (result & w1 & Hrun & _ & Herr & _).
    rewrite Hrun. simpl. f_equal. apply Herr. reflexivity.
  - destruct (proj1 (strategies_never_throw env0 "http://short" mixed))
      as (result & w1 & Hrun & _ & _ & _ & Hshort & _).
    rewrite Hrun. simpl. f_equal.
    exact (Hshort "http://short"%string [text 50] eq_refl eq_refl Hlen).
Defined.


Lemma robust_only_resume_witness :
  let w := start [row "http://js" 5] [failedOnce] 11 in
  existingContentOf pending = Some failedOnce
  /\ ArticleContent.scrapeStatusCheerio failedOnce = Some false
  /\ ArticleContent.scrapeStatusPuppeteer failedOnce = None
  /\ exists evs,
       trace (snd (processArticle env0 pending true (initialStats 1) w)) = trace w ++ evs
       /\ forall u, ~ In (EvAxiosGet u) evs.
Proof.
  intros w. repeat (split; [reflexivity|]).
  exact (proj1 (robust_only_resume env0 pending true (initialStats 1) w failedOnce
                  eq_refl eq_refl eq_refl)).
Defined.

Lemma reported_success_rate_witness :
  let st := mkStats 4 1 2 2 1 0 in
  In (EvSummary st (Some "75.0"%string)) (trace (snd (program env0 mixed)))
  /\ 0 < total st
  /\ total st = List.length (selected mixed)
  /\ Some "75.0"%string
     = toFixed1 (successRate (cheerioSuccess st + puppeteerSuccess st) (total st)).
Proof.
  intros st.
  assert (Hin : In (EvSummary st (Some "75.0"%string)) (trace (snd (program env0 mixed))))
    by (apply (from_end_In _ 2); vm_compute; reflexivity).
  split; [exact Hin|].
  exact (proj1 (reported_success_rate env0 (articles mixed) (articleContents mixed)
                  (nextContentId mixed)) st _ Hin).
Defined.

End Witnesses.

(** * Further properties of the code *)

(** ** The selector and the branches of the loop *)

(** X1.  The filter keeps an article exactly when one of the two branches
    of the loop applies to it, and the two never apply together:
    [needsScraping] is the exclusive or of [needsCheerio] and
    [needsPuppeteer], so the final [else] of the loop is never reached by a
    selected article. *)
Theorem selected_needs_exactly_one (a : Article.t) :
  needsScraping a
  = xorb (needsCheerioOf (existingContentOf a)) (needsPuppeteerOf (existingContentOf a))
  /\ needsCheerioOf (existingContentOf a) && needsPuppeteerOf (existingContentOf a) = false.
Proof.
  rewrite needsScraping_existing. unfold needsCheerioOf, needsPuppeteerOf.
  destruct (existingContentOf a) as [c|]; [|split; reflexivity].
  destruct (ArticleContent.scrapeStatusCheerio c) as [[|]|],
           (ArticleContent.scrapeStatusPuppeteer c) as [[|]|]; split; reflexivity.
Qed.

Section Coverage.

Variable env : Env.

Lemma processArticles_cons (a : Article.t) (rest : list Article.t)
    (st : ScrapingStats) (w : World) :
  processArticles env (a :: rest) st w
  = match processArticle env a (match rest with [] => true | _ => false end) st w with
    | (Val st1, w1) => processArticles env rest st1 w1
    | (Throw e, w1) => (Throw e, w1)
    | (Exited c, w1) => (Exited c, w1)
    end.
Proof. reflexivity. Qed.

(** X2.  A pass over articles none of which has a URL ([null] or empty)
    leaves the world as it is (no request, no write, no delay) and only
    adds their number to [skipped], whatever the persistence faults. *)
Theorem pass_without_urls (l : list Article.t) (st : ScrapingStats) (w : World) :
  forallb (fun a => negb (hasUrl a)) l = true ->
  processArticles env l st w
  = (Val (mkStats (total st) (cheerioSuccess st) (cheerioFailed st)
            (puppeteerSuccess st) (puppeteerFailed st) (skipped st + List.length l)),
     w).
Proof.
  revert st. induction l as [|a rest IH]; intros st Hall.
  - simpl. unfold ret. destruct st; simpl. now rewrite Nat.add_0_r.
  - simpl in Hall. apply andb_prop in Hall. destruct Hall as [Ha Hrest].
    rewrite processArticles_cons.
    assert (Hskip : forall b, processArticle env a b st w = (Val (incSkipped st), w)).
    { intros b. unfold processArticle. unfold hasUrl, truthy_opt in Ha.
      destruct (Article.url a) as [url|]; [|reflexivity].
      destruct (truthy url); [discriminate|reflexivity]. }
    rewrite Hskip, IH by assumption. simpl. rewrite Nat.add_succ_r. reflexivity.
Qed.

(** The two ways a run ends. *)
Lemma exit_code_cases (w : World) :
  fst (program env w) = Exited 0
  \/ (fst (program env w) = Exited 1 /\ exists n, dbFault env n = true).
Proof.
  pose proof (program_spec env w) as Hrun. unfold wp, programPost, closing in Hrun.
  destruct Hrun as [(e & pre & _ & _ & Hr & Hf)
                   |[(_ & tail & _ & [[_ Hr]|(_ & Hr & Hf)])
                    |(_ & pre & st1 & tail & _ & _ & _ & _ & [[_ Hr]|(_ & Hr & Hf)])]];
    auto.
Qed.

(** X3.  A run always ends by exiting the process, with code 0 or 1, and
    code 1 only when a persistence operation failed: as long as persistence
    works the code is 0 whatever the extraction strategies return.  An exit
    with 0 comes right after the close of the connection. *)
Theorem run_exit_code (w : World) :
  (fst (program env w) = Exited 0
   \/ (fst (program env w) = Exited 1 /\ exists n, dbFault env n = true))
  /\ ((forall n, dbFault env n = false) -> fst (program env w) = Exited 0)
  /\ (fst (program env w) = Exited 0 ->
      exists evs, trace (snd (program env w)) = trace w ++ evs ++ [EvClose; EvExit 0]).
Proof.
  split; [apply exit_code_cases|]. split.
  - intros Hok. destruct (exit_code_cases w) as [H|[_ [n Hn]]]; [exact H|].
    rewrite Hok in Hn. discriminate.
  - apply normal_exit_closes.
Qed.

End Coverage.

(** ** What a strategy extracts *)

Lemma join_truthy (sep s : string) (l : list string) :
  truthy s = true -> truthy (join sep (s :: l)) = true.
Proof.
  intros Hs. destruct s as [|c s]; [discriminate|].
  destruct l; reflexivity.
Qed.

Lemma length_append (s t : string) :
  String.length (s ++ t) = String.length s + String.length t.
Proof. induction s as [|c s IH]; simpl; [reflexivity|now rewrite IH]. Qed.

Lemma join_length (sep : string) (l : list string) :
  String.length (join sep l) + String.length sep * (match l with [] => 0 | _ => 1 end)
  = list_sum (map String.length l) + String.length sep * List.length l.
Proof.
  induction l as [|s l IH]; [simpl; lia|].
  destruct l as [|s' l].
  - simpl. lia.
  - change (join sep (s :: s' :: l)) with (s ++ sep ++ join sep (s' :: l))%string.
    rewrite !length_append.
    change (List.length (s :: s' :: l)) with (S (List.length (s' :: l))).
    change (list_sum (map String.length (s :: s' :: l)))
      with (String.length s + list_sum (map String.length (s' :: l))).
    rewrite Nat.mul_1_r in IH. rewrite Nat.mul_1_r, Nat.mul_succ_r. lia.
Qed.

Section StrategiesMore.

Variable env : Env.

(** X4.  Cheerio has no fallback: a page without a non-empty paragraph
    always fails with "Content too short (0 chars, minimum 200)".  With
    [n >= 1] non-empty paragraphs the attempt succeeds exactly when their
    lengths plus the two-character separators between them reach 200. *)
Theorem cheerio_threshold_counts_separators (url : string) (w : World)
    (data : string) (texts : list string) :
  axios_get env url = Ok data ->
  cheerio_paragraphs env data = Ok texts ->
  let paragraphs := filter nonEmptyText texts in
  exists result,
    fst (scrapeArticleContentWithCheerio env url w) = Val result
    /\ (paragraphs = [] ->
        result = ScrapeResult.mk false None
                   (Some "Content too short (0 chars, minimum 200)"%string))
    /\ (paragraphs <> [] ->
        (ScrapeResult.success result = true
         <-> 200 <= list_sum (map String.length paragraphs)
                    + 2 * (List.length paragraphs - 1))).
Proof.
  intros Hget Hpar paragraphs.
  unfold scrapeArticleContentWithCheerio, try_catch, bind, emit, answer, ret.
  rewrite Hget, Hpar. cbn [fst]. eexists. split; [reflexivity|].
  unfold cheerioContent. fold paragraphs. split.
  - intros ->. reflexivity.
  - intros Hne.
    pose proof (join_length (nl ++ nl) paragraphs) as Hlen.
    change (String.length (nl ++ nl)) with 2 in Hlen.
    destruct paragraphs as [|p ps] eqn:Hp; [contradiction|].
    assert (Hlen' : String.length (join (nl ++ nl) (p :: ps))
                    = list_sum (map String.length (p :: ps))
                      + 2 * (List.length (p :: ps) - 1))
      by (cbn [List.length] in *; lia).
    rewrite <- Hlen'. unfold checkLength.
    assert (Htr : truthy (join (nl ++ nl) (p :: ps)) = true).
    { apply join_truthy.
      assert (Hin : In p (filter nonEmptyText texts))
        by (fold paragraphs; rewrite Hp; now left).
      apply filter_In in Hin. destruct Hin as [_ Hin]. unfold nonEmptyText in Hin.
      now apply andb_prop in Hin. }
    rewrite Htr. cbn [negb orb].
    destruct (String.length (join (nl ++ nl) (p :: ps)) <? 200)%nat eqn:Hlt;
      unfold contentTooShort; cbn [ScrapeResult.success].
    + apply Nat.ltb_lt in Hlt. split; [discriminate|lia].
    + apply Nat.ltb_ge in Hlt. split; [trivial|reflexivity].
Qed.

(** X5.  Puppeteer judges the text of the container only when the page has
    no non-empty paragraph; as soon as there is one, the joined paragraphs
    alone are judged and the container text is ignored, however long. *)
Theorem puppeteer_content_source (url : string) (w : World)
    (dom : list string * string) :
  puppeteer_goto env url = Ok tt ->
  page_evaluate env url = Ok dom ->
  browser_close env url = Ok tt ->
  let paragraphs := filter nonEmptyText (fst dom) in
  (paragraphs = [] ->
   fst (scrapeArticleContentWithPuppeteer env url w) = Val (checkLength (snd dom)))
  /\ (paragraphs <> [] ->
      fst (scrapeArticleContentWithPuppeteer env url w)
      = Val (checkLength (join (nl ++ nl) paragraphs))).
Proof.
  intros Hgo Hev Hcl paragraphs.
  unfold scrapeArticleContentWithPuppeteer, try_catch, bind, emit, answer, ret.
  rewrite Hgo, Hev, Hcl. cbn [fst]. unfold puppeteerContent. fold paragraphs.
  split.
  - intros ->. simpl. unfold or_else. now destruct (snd dom).
  - intros Hne. destruct paragraphs as [|p ps] eqn:Hp; [contradiction|].
    unfold or_else at 1. rewrite join_truthy; [reflexivity|].
    assert (Hin : In p (filter nonEmptyText (fst dom)))
      by (fold paragraphs; rewrite Hp; now left).
    apply filter_In in Hin. destruct Hin as [_ Hin]. unfold nonEmptyText in Hin.
    now apply andb_prop in Hin.
Qed.

(** What both strategies return for a URL, and what a success carries. *)
Lemma strategy_results (url : string) :
  exists rc rp,
    (forall (Q : Outcome ScrapeResult.t -> World -> Prop) w,
        Q (Val rc) (log (EvAxiosGet url) w) ->
        wp (scrapeArticleContentWithCheerio env url) Q w)
    /\ (forall (Q : Outcome ScrapeResult.t -> World -> Prop) w,
           Q (Val rp) (log (EvPuppeteerGoto url) w) ->
           wp (scrapeArticleContentWithPuppeteer env url) Q w)
    /\ (succeeded rc = true -> 200 <= String.length (contentOf rc))
    /\ (succeeded rp = true -> 200 <= String.length (contentOf rp)).
Proof.
  assert (Hcheck : forall content,
             succeeded (checkLength content) = true ->
             200 <= String.length (contentOf (checkLength content))).
  { intros content. unfold checkLength.
    destruct (negb (truthy content) || (String.length content <? 200)%nat) eqn:Ht;
      [discriminate|].
    intros _. apply orb_false_elim in Ht. destruct Ht as [_ Ht].
    now apply Nat.ltb_ge in Ht. }
  assert (Hc : exists rc, (forall w, scrapeArticleContentWithCheerio env url w
                                     = (Val rc, log (EvAxiosGet url) w))
                          /\ (succeeded rc = true -> 200 <= String.length (contentOf rc))).
  { unfold scrapeArticleContentWithCheerio, try_catch, bind, emit, answer, ret, throw, caught.
    destruct (axios_get env url) as [data|e];
      [destruct (cheerio_paragraphs env data) as [texts|e]|];
      eexists; (split; [intros; reflexivity|]); try discriminate. apply Hcheck. }
  assert (Hp : exists rp, (forall w, scrapeArticleContentWithPuppeteer env url w
                                     = (Val rp, log (EvPuppeteerGoto url) w))
                          /\ (succeeded rp = true -> 200 <= String.length (contentOf rp))).
  { unfold scrapeArticleContentWithPuppeteer, try_catch, bind, emit, answer, ret, throw, caught.
    destruct (puppeteer_goto env url) as [[]|e];
      [destruct (page_evaluate env url) as [dom|e];
       [destruct (browser_close env url) as [[]|e]|]|];
      eexists; (split; [intros; reflexivity|]); try discriminate. apply Hcheck. }
  destruct Hc as (rc & Hc & Hca), Hp as (rp & Hp & Hpa). exists rc, rp.
  repeat split; trivial; intros Q w H; unfold wp.
  - now rewrite Hc.
  - now rewrite Hp.
Qed.

End StrategiesMore.

(** ** The effects of the loop *)

Lemma keeps_refl (c : ArticleContent.t) : keeps c c.
Proof. repeat split; trivial. Qed.

Lemma keeps_trans (a b c : ArticleContent.t) : keeps a b -> keeps b c -> keeps a c.
Proof.
  intros (Hi1 & Ha1 & Hc1 & Hp1) (Hi2 & Ha2 & Hc2 & Hp2).
  repeat split; try congruence; auto.
Qed.

Lemma Forall2_same {A} (R : A -> A -> Prop) (l : list A) :
  (forall x, R x x) -> Forall2 R l l.
Proof. intros HR. induction l; constructor; auto. Qed.

Lemma Forall2_compose {A} (R : A -> A -> Prop) (l1 l2 l3 : list A) :
  (forall x y z, R x y -> R y z -> R x z) ->
  Forall2 R l1 l2 -> Forall2 R l2 l3 -> Forall2 R l1 l3.
Proof.
  intros HR H12. revert l3. induction H12; intros l3 H23; inversion H23; subst;
    constructor; eauto.
Qed.

Lemma evolves_refl (R : ArticleContent.t -> ArticleContent.t -> Prop) rows :
  (forall x, R x x) -> evolves R rows rows.
Proof.
  intros HR. exists rows, []. split; [now rewrite app_nil_r|now apply Forall2_same].
Qed.

Lemma evolves_trans (R : ArticleContent.t -> ArticleContent.t -> Prop) r1 r2 r3 :
  (forall x y z, R x y -> R y z -> R x z) ->
  evolves R r1 r2 -> evolves R r2 r3 -> evolves R r1 r3.
Proof.
  intros HR (k2 & a2 & -> & H12) (k3 & a3 & -> & H23).
  apply Forall2_app_inv_l in H23. destruct H23 as (k3' & a3' & Hk & Ha & ->).
  exists k3', (a3' ++ a3). split; [now rewrite app_assoc|].
  eapply Forall2_compose; eassumption.
Qed.

Lemma evolves_create (R : ArticleContent.t -> ArticleContent.t -> Prop) rows row :
  (forall x, R x x) -> evolves R rows (rows ++ [row]).
Proof. intros HR. exists rows, [row]. split; [reflexivity|now apply Forall2_same]. Qed.

Lemma evolves_update (id : Z) (v : UpdateValues) rows :
  set_scrapeStatusCheerio v <> Some None ->
  set_scrapeStatusPuppeteer v <> Some None ->
  evolves keeps rows (updateRows id v rows).
Proof.
  intros Hc Hp. exists (updateRows id v rows), []. split; [now rewrite app_nil_r|].
  unfold updateRows. induction rows as [|c rows IH]; simpl; constructor; trivial.
  destruct (ArticleContent.id c =? id)%Z; [|apply keeps_refl].
  unfold keeps, applyValues. simpl. repeat split.
  - destruct (set_scrapeStatusCheerio v) as [[b|]|]; trivial; congruence.
  - destruct (set_scrapeStatusPuppeteer v) as [[b|]|]; trivial; congruence.
Qed.

(** ** Convergence *)

Lemma settles_refl (c : ArticleContent.t) : settles c c.
Proof. split; [apply keeps_refl|trivial]. Qed.

Lemma settles_trans (a b c : ArticleContent.t) : settles a b -> settles b c -> settles a c.
Proof.
  intros [Hk1 Hr1] [Hk2 Hr2]. split; [eapply keeps_trans; eassumption|auto].
Qed.

Lemma firstRecord_joined (rows : list ArticleContent.t) (r : ArticleRow) :
  existingContentOf (joined rows r) = firstRecord rows (row_id r).
Proof.
  unfold existingContentOf, joined, contentsOf, firstRecord. cbn [Article.ArticleContents].
  induction rows as [|c rows IH]; simpl; trivial.
  destruct (ArticleContent.articleId c =? row_id r)%Z; trivial.
Qed.

Lemma resolved_first (rows : list ArticleContent.t) (r : ArticleRow) :
  resolved (joined rows r)
  = match firstRecord rows (row_id r) with
    | Some c => resolvedRow c
    | None => false
    end.
Proof.
  unfold resolved. rewrite firstRecord_joined.
  destruct (firstRecord rows (row_id r)) as [c|]; trivial.
Qed.

Lemma firstRecord_update (id : Z) (v : UpdateValues) rows (i : Z) :
  firstRecord (updateRows id v rows) i
  = option_map (fun c => if (ArticleContent.id c =? id)%Z then applyValues v c else c)
      (firstRecord rows i).
Proof.
  unfold firstRecord, updateRows. induction rows as [|c rows IH]; [reflexivity|].
  cbn [map find].
  destruct (ArticleContent.id c =? id)%Z eqn:Hid;
    [change (ArticleContent.articleId (applyValues v c)) with (ArticleContent.articleId c)|];
    destruct (ArticleContent.articleId c =? i)%Z; trivial;
    cbn [option_map]; now rewrite Hid.
Qed.

Lemma firstRecord_map (f : ArticleContent.t -> ArticleContent.t) rows (i : Z) :
  (forall c, ArticleContent.articleId (f c) = ArticleContent.articleId c) ->
  firstRecord (map f rows) i = option_map f (firstRecord rows i).
Proof.
  intros Hf. unfold firstRecord. induction rows as [|c rows IH]; [reflexivity|].
  cbn [map find]. rewrite Hf. destruct (ArticleContent.articleId c =? i)%Z; trivial.
Qed.

Lemma firstRecord_append rows (new : ArticleContent.t) (i : Z) :
  firstRecord (rows ++ [new]) i
  = match firstRecord rows i with
    | Some c => Some c
    | None => if (ArticleContent.articleId new =? i)%Z then Some new else None
    end.
Proof.
  unfold firstRecord. induction rows as [|c rows IH]; simpl; trivial.
  destruct (ArticleContent.articleId c =? i)%Z; trivial.
Qed.

Lemma firstRecord_evolves (R : ArticleContent.t -> ArticleContent.t -> Prop)
    rows rows' (i : Z) (c : ArticleContent.t) :
  (forall x y, R x y -> ArticleContent.articleId y = ArticleContent.articleId x) ->
  evolves R rows rows' ->
  firstRecord rows i = Some c ->
  exists c', firstRecord rows' i = Some c' /\ R c c'.
Proof.
  intros HR (kept & added & -> & Hall). revert c.
  unfold firstRecord. induction Hall as [|x y l l' Hxy Hall IH]; intros c; simpl.
  - discriminate.
  - rewrite (HR _ _ Hxy).
    destruct (ArticleContent.articleId x =? i)%Z.
    + intros [= <-]. eauto.
    + apply IH.
Qed.

Lemma updateRows_twice (id : Z) (v1 v2 : UpdateValues) rows :
  updateRows id v2 (updateRows id v1 rows)
  = map (fun c => if (ArticleContent.id c =? id)%Z
                  then applyValues v2 (applyValues v1 c) else c) rows.
Proof.
  unfold updateRows. rewrite map_map. apply map_ext. intros c.
  destruct (ArticleContent.id c =? id)%Z eqn:Hid; simpl; now rewrite Hid.
Qed.

Lemma evolves_map (R : ArticleContent.t -> ArticleContent.t -> Prop)
    (f : ArticleContent.t -> ArticleContent.t) rows :
  (forall c, R c (f c)) -> evolves R rows (map f rows).
Proof.
  intros Hf. exists (map f rows), []. split; [now rewrite app_nil_r|].
  induction rows; simpl; constructor; auto.
Qed.

Lemma evolves_more (R : ArticleContent.t -> ArticleContent.t -> Prop) rows rows' extra :
  evolves R rows rows' -> evolves R rows (rows' ++ extra).
Proof.
  intros (kept & added & -> & Hall). exists kept, (added ++ extra).
  split; [now rewrite app_assoc|exact Hall].
Qed.

Lemma settles_cases (v : UpdateValues) (c : ArticleContent.t) :
  set_scrapeStatusCheerio v <> Some None ->
  set_scrapeStatusPuppeteer v <> Some None ->
  set_scrapeStatusCheerio v = Some (Some true)
  \/ (exists b, set_scrapeStatusPuppeteer v = Some (Some b))
     /\ (set_scrapeStatusCheerio v = None \/ exists b, set_scrapeStatusCheerio v = Some (Some b)) ->
  settles c (applyValues v c).
Proof.
  intros Hc Hp Hv. split.
  - unfold keeps, applyValues. simpl. repeat split.
    + destruct (set_scrapeStatusCheerio v) as [[b|]|]; trivial; congruence.
    + destruct (set_scrapeStatusPuppeteer v) as [[b|]|]; trivial; congruence.
  - unfold resolvedRow, applyValues. simpl.
    destruct Hv as [->|[[b ->] [->|[b' ->]]]].
    + trivial.
    + destruct (ArticleContent.scrapeStatusCheerio c) as [[|]|]; trivial.
    + destruct b'; trivial.
Qed.

Section Effects.

Variable env : Env.

Ltac wp_go Hc Hp :=
  repeat (cbn beta iota zeta delta [continue];
    match goal with
    | |- wp (bind _ _) _ _ => apply wp_bind
    | |- wp (ret _) _ _ => apply wp_ret
    | |- wp (emit _) _ _ => apply wp_emit
    | |- wp (throw _) _ _ => apply wp_throw
    | |- wp (scrapeArticleContentWithCheerio _ _) _ _ => apply Hc
    | |- wp (scrapeArticleContentWithPuppeteer _ _) _ _ => apply Hp
    | |- wp (update _ _ _) _ _ => apply wp_update; intros ?
    | |- wp (create _ _ _ _ _) _ _ => apply wp_create; intros ?
    | |- wp (findOne _ _) _ _ => apply wp_findOne; intros ?
    | |- wp (if ?b then _ else _) _ _ => destruct b eqn:?
    | |- wp (match ?x with _ => _ end) _ _ => destruct x eqn:?
    end).

Ltac trace_ext :=
  first [ symmetry; apply app_nil_r
        | simpl; rewrite <- ?app_assoc; simpl; reflexivity ].

Ltac evolve :=
  cbn [articleContents log bump set_contents set_connected];
  repeat first
    [ apply evolves_refl; exact keeps_refl
    | eapply evolves_trans;
      [ exact keeps_trans
      |
      | first [ apply evolves_update; discriminate
              | apply evolves_create; exact keeps_refl ] ] ].

Lemma iteration_effects (a : Article.t) (isLast : bool) (st : ScrapingStats) (w : World) :
  wp (processArticle env a isLast st) (iterationEffects a isLast w) w.
Proof.
  unfold processArticle, iterationEffects, hasUrl.
  destruct (Article.url a) as [url|] eqn:Hurl; cbn [truthy_opt].
  2:{ apply wp_ret. exists []. repeat split; try trace_ext; simpl; auto; try discriminate.
      apply evolves_refl, keeps_refl. }
  destruct (truthy url) eqn:Htr.
  2:{ apply wp_ret. exists []. repeat split; try trace_ext; simpl; auto; try discriminate.
      apply evolves_refl, keeps_refl. }
  destruct (strategy_results env url) as (rc & rp & Hc & Hp & Hca & Hpa).
  rewrite needsScraping_existing.
  unfold cheerioBranch, puppeteerBranch, cascadeToPuppeteer, contentRecordOf,
    updateIfFound, needsCheerioOf, needsPuppeteerOf.
  destruct (existingContentOf a) as [c|];
    [destruct (ArticleContent.scrapeStatusCheerio c) as [[|]|],
              (ArticleContent.scrapeStatusPuppeteer c) as [[|]|]|];
    simpl; wp_go Hc Hp.
  all: eexists; split; [trace_ext|].
  all: cbn [filter isExtraction isCreate isDelay List.length negb andb].
  all: split; [first [left; reflexivity
                     |right; exists url; split; [reflexivity|simpl; auto]]|].
  all: split; [intros; discriminate|].
  all: split; [first [reflexivity|intros Hn; now contradiction Hn]|].
  all: split; [lia|].
  all: split; [repeat (first [apply Forall_nil|apply Forall_cons]); simpl; auto|].
  all: split; [reflexivity|].
  all: split; [evolve|].
  all: split; reflexivity.
Qed.

Lemma pass_effects (l : list Article.t) :
  forall st w, wp (processArticles env l st) (passEffects l w) w.
Proof.
  induction l as [|a rest IH]; intros st w.
  - apply wp_ret. exists []. unfold passEffects. simpl.
    repeat split; auto; try trace_ext. apply evolves_refl, keeps_refl.
  - unfold wp. rewrite processArticles_cons.
    pose proof (iteration_effects a (match rest with [] => true | _ => false end) st w)
      as Ha.
    unfold wp in Ha.
    destruct (processArticle env a _ st w) as [r1 w1]. cbn [fst snd] in Ha.
    destruct Ha as (evs1 & Ht1 & Hreq1 & _ & Hrec1 & Hcr1 & Hacc1 & Hloop1 & Hev1
                    & Hart1 & Hdel1).
    assert (Hreq1' : List.length (filter isExtraction evs1) <= 2).
    { destruct Hreq1 as [->|(url & _ & [<-|[<-|[<-|[]]]])]; simpl; lia. }
    assert (Hcr1' : List.length (filter isCreate evs1)
                    <= if hasNoRecord a then 1 else 0).
    { unfold hasNoRecord. destruct (existingContentOf a); [|exact Hcr1].
      rewrite Hrec1 by discriminate. simpl. lia. }
    destruct r1 as [st1|e|c]; [|cbn [fst snd]|contradiction].
    + specialize (IH st1 w1). unfold wp in IH.
      destruct (processArticles env rest st1 w1) as [r2 w2]. cbn [fst snd] in *.
      destruct IH as (evs2 & Ht2 & Hreq2 & Hcr2 & Hacc2 & Hloop2 & Hev2 & Hart2 & Hdel2).
      exists (evs1 ++ evs2). rewrite !filter_app, !length_app, forallb_app.
      split; [now rewrite Ht2, Ht1, app_assoc|].
      split; [cbn [List.length]; lia|].
      split; [cbn [filter]; destruct (hasNoRecord a); cbn [List.length]; lia|].
      split; [now apply Forall_app|].
      split; [now rewrite Hloop1, Hloop2|].
      split; [eapply evolves_trans; [exact keeps_trans| |]; eassumption|].
      split; [congruence|].
      destruct r2 as [st2|e|c]; trivial.
      rewrite Hdel1, Hdel2. destruct rest as [|b rest']; [now rewrite andb_false_r|].
      rewrite andb_true_r. change (removelast (a :: b :: rest'))
        with (a :: removelast (b :: rest')).
      cbn [filter]. destruct (hasUrl a); reflexivity.
    + exists evs1. repeat split; trivial.
      * cbn [List.length]. lia.
      * cbn [filter]. destruct (hasNoRecord a); cbn [List.length]; lia.
Qed.

(** The whole run around its pass. *)
Lemma program_loop (w : World) :
  (exists evs,
      trace (snd (program env w)) = trace w ++ evs
      /\ filter loopEvent evs = []
      /\ articleContents (snd (program env w)) = articleContents w
      /\ articles (snd (program env w)) = articles w
      /\ (fst (program env w) = Exited 0 -> selected w = [])
      /\ (forall st1 rate, ~ In (EvSummary st1 rate) evs))
  \/ (exists r wl evs tail,
         processArticles env (selected w) (initialStats (List.length (selected w)))
           (afterFindAll w) = (r, wl)
         /\ trace wl = trace (afterFindAll w) ++ evs
         /\ trace (snd (program env w))
            = trace w ++ [EvAuthenticate; EvFindAll] ++ evs ++ tail
         /\ filter loopEvent tail = []
         /\ articleContents (snd (program env w)) = articleContents wl
         /\ articles (snd (program env w)) = articles wl
         /\ (fst (program env w) = Exited 0 -> exists st1, r = Val st1)
         /\ (forall st1 rate, In (EvSummary st1 rate) tail -> r = Val st1)).
Proof.
  unfold program, main, try_catch_finally, and_finally, mainBody, authenticate,
    findAll, close, persistence, bind, emit, process_exit.
  destruct (dbFault env (dbOps w)) eqn:F0; cbn [fst snd].
  { left. eexists. split; [trace_ext|]. do 3 (split; [reflexivity|]).
    split; [discriminate|]. intros st1 rate Hin. simpl in Hin. intuition discriminate. }
  cbn [bump dbOps log set_connected].
  destruct (dbFault env (S (dbOps w))) eqn:F1; cbn [fst snd].
  { left. eexists. split; [trace_ext|]. do 3 (split; [reflexivity|]).
    split; [discriminate|]. intros st1 rate Hin. simpl in Hin. intuition discriminate. }
  change (map _ _) with (population w). fold (selected w).
  change (log EvFindAll _) with (afterFindAll w).
  destruct (selected w) as [|a l] eqn:Hsel.
  - left. cbn [initialStats total List.length Nat.eqb]. cbn [fst snd].
    unfold afterFindAll. cbn [dbOps log bump set_connected].
    destruct (dbFault env (S (S (dbOps w)))) eqn:F2; cbn [fst snd];
      (eexists; split; [trace_ext|]; do 3 (split; [reflexivity|]);
       split; [reflexivity|]; intros st1 rate Hin; simpl in Hin; intuition discriminate).
  - right. cbn [initialStats total List.length Nat.eqb].
    pose proof (pass_effects (a :: l) (mkStats (S (List.length l)) 0 0 0 0 0)
                  (afterFindAll w)) as Hpass.
    unfold wp in Hpass.
    destruct (processArticles env (a :: l) _ (afterFindAll w)) as [r wl] eqn:Hrun.
    cbn [fst snd] in Hpass.
    destruct Hpass as (evs & Ht & _ & _ & _ & _ & _ & _ & Hr).
    exists r, wl, evs.
    destruct r as [st1|e|c]; [|cbn [fst snd]|contradiction].
    + cbn [fst snd dbOps log]. destruct (dbFault env (dbOps wl)) eqn:F2; cbn [fst snd];
        eexists; (split; [reflexivity|]); (split; [exact Ht|]);
        (split; [simpl; rewrite Ht; unfold afterFindAll; trace_ext|]);
        (do 3 (split; [reflexivity|])); (split; [eauto|]);
        intros st2 rate Hin; simpl in Hin; unfold summary in Hin;
        decompose [or] Hin; try discriminate; try contradiction;
        match goal with H : EvSummary _ _ = EvSummary _ _ |- _ =>
          injection H as <- _; reflexivity end.
    + eexists. split; [reflexivity|]. split; [exact Ht|].
      split; [simpl; rewrite Ht; unfold afterFindAll; trace_ext|].
      do 3 (split; [reflexivity|]). split; [discriminate|].
      intros st2 rate Hin. simpl in Hin. decompose [or] Hin; try discriminate.
      contradiction.
Qed.


Lemma filter_none_sub (P Q : Event -> bool) (evs : list Event) :
  (forall e, P e = true -> Q e = true) -> filter Q evs = [] -> filter P evs = [].
Proof.
  intros Hsub. induction evs as [|e evs IH]; simpl; trivial.
  destruct (Q e) eqn:Hq; [discriminate|]. intros H.
  destruct (P e) eqn:Hp; [apply Hsub in Hp; congruence|auto].
Qed.

Lemma quiet_accepted (evs : list Event) :
  filter loopEvent evs = [] -> Forall acceptedWrite evs.
Proof.
  induction evs as [|e evs IH]; simpl; [constructor|].
  destruct (loopEvent e) eqn:He; [discriminate|]. intros H.
  constructor; [|auto]. destruct e; simpl; trivial; discriminate.
Qed.

(** The effects of a whole run, from any world. *)
Lemma run_effects (w : World) :
  exists evs,
    trace (snd (program env w)) = trace w ++ evs
    /\ List.length (filter isExtraction evs) <= 2 * List.length (selected w)
    /\ List.length (filter isCreate evs) <= List.length (filter hasNoRecord (selected w))
    /\ Forall acceptedWrite evs
    /\ evolves keeps (articleContents w) (articleContents (snd (program env w)))
    /\ articles (snd (program env w)) = articles w
    /\ (fst (program env w) = Exited 0 ->
        List.length (filter isDelay evs)
        = List.length (filter hasUrl (removelast (selected w)))).
Proof.
  destruct (program_loop w)
    as [(evs & Ht & Hq & Hc & Ha & Hsel & _)
       |(r & wl & evs & tail & Hrun & Htl & Ht & Hq & Hc & Ha & Hr & _)].
  - exists evs. split; [exact Ht|].
    rewrite (filter_none_sub isExtraction loopEvent evs), (filter_none_sub isCreate loopEvent evs),
      (filter_none_sub isDelay loopEvent evs); trivial;
      try (intros []; simpl; trivial; discriminate).
    repeat split; simpl; try lia; trivial.
    + now apply quiet_accepted.
    + rewrite Hc. apply evolves_refl, keeps_refl.
    + intros Hexit. now rewrite (Hsel Hexit).
  - pose proof (pass_effects (selected w) (initialStats (List.length (selected w)))
                  (afterFindAll w)) as Hpass.
    unfold wp in Hpass. rewrite Hrun in Hpass. cbn [fst snd] in Hpass.
    destruct Hpass as (evs' & Ht' & Hreq & Hcr & Hacc & Hloop & Hev & Hart & Hdel).
    rewrite Htl in Ht'. apply app_inv_head in Ht'. subst evs'.
    exists ([EvAuthenticate; EvFindAll] ++ evs ++ tail). split; [exact Ht|].
    rewrite !filter_app, !length_app.
    rewrite (filter_none_sub isExtraction loopEvent tail), (filter_none_sub isCreate loopEvent tail),
      (filter_none_sub isDelay loopEvent tail); trivial;
      try (intros []; simpl; trivial; discriminate).
    cbn [filter isExtraction isCreate isDelay List.length app].
    repeat split; try lia.
    + repeat constructor. apply Forall_app. split; [exact Hacc|now apply quiet_accepted].
    + rewrite Hc. exact Hev.
    + rewrite Ha. exact Hart.
    + intros Hexit. destruct (Hr Hexit) as [st1 ->]. rewrite Hdel. lia.
Qed.


Lemma iteration_counters (a : Article.t) (isLast : bool) (st : ScrapingStats) (w : World) :
  wp (processArticle env a isLast st)
    (fun r _ => forall st1, r = Val st1 -> counted [a] st st1) w.
Proof.
  unfold processArticle, counted, triesCheerio, resumesWithPuppeteer, hasUrl.
  cbn [filter].
  destruct (Article.url a) as [url|]; cbn [truthy_opt].
  2:{ apply wp_ret. intros st1 [= <-]. simpl. lia. }
  destruct (truthy url).
  2:{ apply wp_ret. intros st1 [= <-]. simpl. lia. }
  destruct (strategy_results env url) as (rc & rp & Hc & Hp & _ & _).
  unfold cheerioBranch, puppeteerBranch, cascadeToPuppeteer, contentRecordOf,
    updateIfFound, needsCheerioOf, needsPuppeteerOf.
  destruct (existingContentOf a) as [c|];
    [destruct (ArticleContent.scrapeStatusCheerio c) as [[|]|],
              (ArticleContent.scrapeStatusPuppeteer c) as [[|]|]|];
    simpl; wp_go Hc Hp; intros st1 Hst; try discriminate Hst;
    injection Hst as <-; simpl; lia.
Qed.

Lemma pass_counters (l : list Article.t) :
  forall st w st1 w1,
    processArticles env l st w = (Val st1, w1) -> counted l st st1.
Proof.
  induction l as [|a rest IH]; intros st w st1 w1.
  - intros [= <- _]. unfold counted. simpl. lia.
  - rewrite processArticles_cons.
    pose proof (iteration_counters a (match rest with [] => true | _ => false end) st w)
      as Ha. unfold wp in Ha.
    destruct (processArticle env a _ st w) as [[st'|e|c] w']; try discriminate.
    intros Hrest. apply IH in Hrest. specialize (Ha st' eq_refl).
    unfold counted in *. cbn [filter] in *.
    destruct (hasUrl a), (triesCheerio a), (resumesWithPuppeteer a);
      cbn [negb List.length] in *; lia.
Qed.


(** After an iteration, however it ends, the store is untouched or the
    first record of the article has its Cheerio attempt on record. *)
Lemma iteration_progress (a : Article.t) (isLast : bool) (st : ScrapingStats)
    (w : World) (url : string) :
  Article.url a = Some url ->
  truthy url = true ->
  needsScraping a = true ->
  linked a (articleContents w) ->
  wp (processArticle env a isLast st)
    (fun _ w1 =>
       articleContents w1 = articleContents w
       \/ exists c1,
            firstRecord (articleContents w1) (Article.id a) = Some c1
            /\ (resolvedRow c1 = true
                \/ (ArticleContent.scrapeStatusCheerio c1 = Some false
                    /\ ArticleContent.scrapeStatusPuppeteer c1 = None))) w.
Proof.
  intros Hurl Htr Hsel Hlink. unfold processArticle. rewrite Hurl, Htr.
  destruct (strategy_results env url) as (rc & rp & Hc & Hp & _ & _).
  rewrite needsScraping_existing in Hsel. unfold linked in Hlink.
  unfold cheerioBranch, puppeteerBranch, cascadeToPuppeteer, contentRecordOf,
    updateIfFound, needsCheerioOf, needsPuppeteerOf.
  destruct (existingContentOf a) as [c|].
  - destruct Hlink as (c' & Hfirst & Hid & Hmono).
    destruct (ArticleContent.scrapeStatusCheerio c) as [[|]|] eqn:Hch,
             (ArticleContent.scrapeStatusPuppeteer c) as [[|]|] eqn:Hpu;
      try discriminate Hsel; cbn [is_null is_false andb]; wp_go Hc Hp.
    all: cbn beta iota zeta delta [continue].
    all: cbn [articleContents log bump set_contents].
    all: first
      [ left; reflexivity
      | right; rewrite ?updateRows_twice; unfold updateRows;
        rewrite firstRecord_map, Hfirst
          by (intros x; destruct (_ =? _)%Z; reflexivity);
        cbn [option_map]; rewrite Hid, Z.eqb_refl; eexists; split; [reflexivity|];
        unfold resolvedRow, applyValues; cbn;
        destruct (ArticleContent.scrapeStatusCheerio c') as [[|]|],
                 (ArticleContent.scrapeStatusPuppeteer c') as [[|]|];
        auto; now contradiction Hmono ].
  - cbn [is_null is_false andb orb]. wp_go Hc Hp.
    all: cbn beta iota zeta delta [continue].
    all: cbn [articleContents nextContentId log bump set_contents] in *.
    all: try match goal with
         | H : find ?f ?l = _ |- _ =>
             change (find f l) with (firstRecord l (Article.id a)) in H;
             rewrite firstRecord_append, Hlink in H; cbn [ArticleContent.articleId] in H;
             rewrite Z.eqb_refl in H; first [discriminate H | injection H as <-]
         end.
    all: first
      [ left; reflexivity
      | right; unfold updateRows;
        rewrite ?firstRecord_map by (intros x; destruct (_ =? _)%Z; reflexivity);
        rewrite firstRecord_append, Hlink; cbn [ArticleContent.articleId];
        rewrite Z.eqb_refl; cbn [option_map ArticleContent.id];
        rewrite ?Z.eqb_refl; eexists; split; [reflexivity|];
        unfold resolvedRow, applyValues; cbn; auto ].
Qed.

End Effects.

Section Convergence.

Variable env : Env.

Hypothesis no_fault : forall n, dbFault env n = false.

Ltac wp_go Hc Hp :=
  repeat (cbn beta iota zeta delta [continue];
    match goal with
    | |- wp (bind _ _) _ _ => apply wp_bind
    | |- wp (ret _) _ _ => apply wp_ret
    | |- wp (emit _) _ _ => apply wp_emit
    | |- wp (throw _) _ _ => apply wp_throw
    | |- wp (scrapeArticleContentWithCheerio _ _) _ _ => apply Hc
    | |- wp (scrapeArticleContentWithPuppeteer _ _) _ _ => apply Hp
    | |- wp (update _ _ _) _ _ =>
        apply wp_update; [intros F; rewrite no_fault in F; discriminate F|intros _]
    | |- wp (create _ _ _ _ _) _ _ =>
        apply wp_create; [intros F; rewrite no_fault in F; discriminate F|intros _]
    | |- wp (findOne _ _) _ _ =>
        apply wp_findOne; [intros F; rewrite no_fault in F; discriminate F|intros _]
    | |- wp (if ?b then _ else _) _ _ => destruct b eqn:?
    end).

Ltac settle_rows :=
  apply evolves_map; intros x;
  match goal with
  | |- context [(ArticleContent.id x =? ?i)%Z] =>
      destruct (ArticleContent.id x =? i)%Z; [|apply settles_refl]
  end;
  unfold settles, keeps, resolvedRow, applyValues; cbn;
  destruct (ArticleContent.scrapeStatusCheerio x) as [[|]|],
           (ArticleContent.scrapeStatusPuppeteer x) as [[|]|];
  repeat split; trivial; intros; try discriminate; try congruence.

Lemma iteration_settles (a : Article.t) (isLast : bool) (st : ScrapingStats)
    (w : World) (url : string) :
  Article.url a = Some url ->
  truthy url = true ->
  needsScraping a = true ->
  linked a (articleContents w) ->
  wp (processArticle env a isLast st) (settledPost a w) w.
Proof.
  intros Hurl Htr Hsel Hlink. unfold processArticle. rewrite Hurl, Htr.
  destruct (strategy_results env url) as (rc & rp & Hc & Hp & _ & _).
  rewrite needsScraping_existing in Hsel. unfold linked in Hlink.
  unfold settledPost, firstResolved, cheerioBranch, puppeteerBranch, cascadeToPuppeteer,
    contentRecordOf, updateIfFound, needsCheerioOf, needsPuppeteerOf.
  destruct (existingContentOf a) as [c|].
  - destruct Hlink as (c' & Hfirst & Hid & Hmono).
    destruct (ArticleContent.scrapeStatusCheerio c) as [[|]|] eqn:Hch,
             (ArticleContent.scrapeStatusPuppeteer c) as [[|]|] eqn:Hpu;
      try discriminate Hsel; cbn [is_null is_false andb]; wp_go Hc Hp.
    all: cbn [articleContents log bump set_contents].
    all: split; [eauto|].
    all: rewrite ?updateRows_twice; unfold updateRows.
    all: split; [settle_rows|].
    all: split;
      [rewrite firstRecord_map, Hfirst
         by (intros x; destruct (_ =? _)%Z; reflexivity);
       cbn [option_map]; rewrite Hid, Z.eqb_refl; eexists; split; [reflexivity|];
       unfold resolvedRow, applyValues; cbn;
       try reflexivity;
       destruct (ArticleContent.scrapeStatusCheerio c') as [[|]|];
       trivial; now contradiction Hmono
      |intros i Hi Hn;
       rewrite firstRecord_map, Hn
         by (intros x; destruct (_ =? _)%Z; reflexivity);
       reflexivity].
  - cbn [is_null is_false andb orb]. wp_go Hc Hp.
    all: cbn [articleContents nextContentId log bump set_contents].
    1,2: split; [eauto|]; split; [apply evolves_create, settles_refl|]; split;
      [rewrite firstRecord_append, Hlink; cbn; rewrite Z.eqb_refl;
       eexists; split; reflexivity
      |intros i Hi Hn; rewrite firstRecord_append, Hn; cbn;
       destruct (Z.eqb_spec (Article.id a) i); [congruence|reflexivity]].
    all: match goal with
         | |- context [find ?f ?l] =>
             change (find f l) with (firstRecord l (Article.id a))
         end;
      rewrite firstRecord_append, Hlink; cbn [ArticleContent.articleId];
      rewrite Z.eqb_refl; wp_go Hc Hp;
      cbn [articleContents nextContentId log bump set_contents ArticleContent.id].
    all: split; [eauto|].
    all: unfold updateRows; rewrite map_app.
    all: split; [apply evolves_more; settle_rows|].
    all: split;
      [rewrite <- map_app, firstRecord_map, firstRecord_append, Hlink
         by (intros x; destruct (_ =? _)%Z; reflexivity);
       cbn [ArticleContent.articleId]; rewrite Z.eqb_refl; cbn [option_map];
       eexists; split; [reflexivity|];
       cbn [ArticleContent.id]; rewrite Z.eqb_refl; reflexivity
      |intros i Hi Hn;
       rewrite <- map_app, firstRecord_map, firstRecord_append, Hn
         by (intros x; destruct (_ =? _)%Z; reflexivity);
       cbn [ArticleContent.articleId];
       destruct (Z.eqb_spec (Article.id a) i); [congruence|reflexivity]].
Qed.


Lemma settles_articleId (x y : ArticleContent.t) :
  settles x y -> ArticleContent.articleId y = ArticleContent.articleId x.
Proof. now intros [(_ & H & _) _]. Qed.

Lemma firstResolved_evolves rows rows' (i : Z) :
  evolves settles rows rows' -> firstResolved rows i -> firstResolved rows' i.
Proof.
  intros Hev (c & Hc & Hres).
  destruct (firstRecord_evolves settles rows rows' i c settles_articleId Hev Hc)
    as (c' & Hc' & _ & Hkeep).
  exists c'. auto.
Qed.

Lemma linked_evolves (a : Article.t) rows rows' :
  evolves settles rows rows' ->
  (firstRecord rows (Article.id a) = None -> firstRecord rows' (Article.id a) = None) ->
  linked a rows -> linked a rows'.
Proof.
  intros Hev Hnone. unfold linked. destruct (existingContentOf a) as [c|]; [|exact Hnone].
  intros (c' & Hc' & Hid & Hmono).
  destruct (firstRecord_evolves settles rows rows' _ c' settles_articleId Hev Hc')
    as (c'' & Hc'' & (Hid' & _ & Hch & _) & _).
  exists c''. repeat split; [exact Hc''|congruence|auto].
Qed.

Lemma pass_settles (l : list Article.t) :
  forall st w,
    NoDup (map Article.id l) ->
    (forall a, In a l ->
       hasUrl a = true /\ needsScraping a = true /\ linked a (articleContents w)) ->
    exists st1 w1,
      processArticles env l st w = (Val st1, w1)
      /\ evolves settles (articleContents w) (articleContents w1)
      /\ (forall a, In a l -> firstResolved (articleContents w1) (Article.id a)).
Proof.
  induction l as [|a rest IH]; intros st w Hnd Hall.
  - exists st, w. split; [reflexivity|]. split; [apply evolves_refl, settles_refl|].
    intros a [].
  - inversion Hnd as [|i ids Hnotin Hnd']; subst.
    destruct (Hall a (or_introl eq_refl)) as (Hurl & Hsel & Hlink).
    unfold hasUrl, truthy_opt in Hurl.
    destruct (Article.url a) as [url|] eqn:Hu; [|discriminate].
    pose proof (iteration_settles a (match rest with [] => true | _ => false end)
                  st w url Hu Hurl Hsel Hlink) as Hstep.
    unfold wp, settledPost in Hstep. rewrite processArticles_cons.
    destruct (processArticle env a _ st w) as [r1 w1]. cbn [fst snd] in Hstep.
    destruct Hstep as ((st1 & ->) & Hev1 & Hres1 & Hnone1).
    assert (Hall' : forall b, In b rest ->
               hasUrl b = true /\ needsScraping b = true
               /\ linked b (articleContents w1)).
    { intros b Hb. destruct (Hall b (or_intror Hb)) as (Hub & Hsb & Hlb).
      repeat split; trivial. apply (linked_evolves b _ _ Hev1); [|exact Hlb].
      apply Hnone1. intros Heq. apply Hnotin. rewrite <- Heq.
      now apply in_map. }
    destruct (IH st1 w1 Hnd' Hall') as (st2 & w2 & Hrun & Hev2 & Hres2).
    exists st2, w2. split; [exact Hrun|].
    split; [eapply evolves_trans; [exact settles_trans| |]; eassumption|].
    intros b [<-|Hb]; [|now apply Hres2].
    eapply firstResolved_evolves; eassumption.
Qed.

(** The selected articles of a table with distinct ids have distinct ids. *)
Lemma selected_ids_distinct (contents : list ArticleContent.t) (rows : list ArticleRow) :
  NoDup (map row_id rows) ->
  NoDup (map Article.id (filter needsScraping (map (joined contents) rows))).
Proof.
  induction rows as [|r rows IH]; intros Hnd; [constructor|].
  inversion Hnd as [|i ids Hfresh Hrest]; subst. cbn [map filter].
  destruct (needsScraping (joined contents r)); [|now apply IH].
  cbn [map]. constructor; [|now apply IH].
  intros Hin. apply Hfresh. apply in_map_iff in Hin.
  destruct Hin as (a & Hid & Ha). apply filter_In in Ha. destruct Ha as [Ha _].
  apply in_map_iff in Ha. destruct Ha as (r' & <- & Hr'). cbn [joined Article.id] in Hid.
  rewrite <- Hid. now apply in_map.
Qed.

Lemma unselected_resolved (a : Article.t) : needsScraping a = false -> resolved a = true.
Proof.
  rewrite needsScraping_existing. unfold resolved.
  destruct (existingContentOf a) as [c|]; [|discriminate].
  destruct (ArticleContent.scrapeStatusCheerio c) as [[|]|],
           (ArticleContent.scrapeStatusPuppeteer c) as [[|]|];
    trivial; discriminate.
Qed.

(** X12.  Convergence.  When no persistence operation fails, the article
    ids are distinct and every article has a URL, one run exits with 0 and
    leaves every article resolved, so that the next run selects nothing.
    Nothing is assumed about the web or about the ids of the records. *)
Theorem clean_pass_resolves_everything (rows : list ArticleRow)
    (contents : list ArticleContent.t) (next : Z) :
  NoDup (map row_id rows) ->
  (forall r, In r rows -> truthy_opt (row_url r) = true) ->
  let w1 := snd (program env (start rows contents next)) in
  fst (program env (start rows contents next)) = Exited 0
  /\ fullyResolved w1 = true
  /\ selected (restart w1) = [].
Proof.
  intros Hnd Hurls w1. set (w := start rows contents next) in *.
  assert (Hpop : population w = map (joined contents) rows) by reflexivity.
  assert (Hloopc : articleContents (afterFindAll w) = contents) by reflexivity.
  assert (Hloopa : articles (afterFindAll w) = rows) by reflexivity.
  assert (Hexit : fst (program env w) = Exited 0)
    by (destruct (exit_code_cases env w) as [H|[_ [n Hn]]];
        [exact H|rewrite no_fault in Hn; discriminate Hn]).
  assert (Hold : forall r, needsScraping (joined contents r) = false ->
                           firstResolved contents (row_id r)).
  { intros r Hn. apply unselected_resolved in Hn. rewrite resolved_first in Hn.
    destruct (firstRecord contents (row_id r)) as [c|] eqn:Hc0; [|discriminate].
    exists c. auto. }
  assert (Hfirst : forall r, In r rows -> firstResolved (articleContents w1) (row_id r)).
  { intros r Hr. subst w1.
    destruct (program_loop env w)
      as [(evs & _ & _ & Hc & _ & Hsel & _)
         |(res & wl & evs & tail & Hrun & _ & _ & _ & Hc & _ & _ & _)]; rewrite Hc.
    - apply Hold.
      destruct (needsScraping (joined contents r)) eqn:Hn; trivial.
      assert (Hin : In (joined contents r) (selected w)).
      { unfold selected. rewrite Hpop. apply filter_In. split; [|exact Hn].
        now apply in_map. }
      rewrite (Hsel Hexit) in Hin. destruct Hin.
    - assert (Hpass : exists st1 w2,
                 processArticles env (selected w)
                   (initialStats (List.length (selected w))) (afterFindAll w)
                 = (Val st1, w2)
                 /\ evolves settles (articleContents (afterFindAll w)) (articleContents w2)
                 /\ (forall a, In a (selected w) ->
                       firstResolved (articleContents w2) (Article.id a))).
      { apply pass_settles.
        - unfold selected. rewrite Hpop. now apply selected_ids_distinct.
        - intros a Ha'. unfold selected in Ha'. rewrite Hpop in Ha'.
          apply filter_In in Ha'. destruct Ha' as [Ha' Hn].
          apply in_map_iff in Ha'. destruct Ha' as (r' & <- & Hr').
          split; [exact (Hurls r' Hr')|]. split; [exact Hn|].
          unfold linked. rewrite firstRecord_joined, Hloopc.
          cbn [joined Article.id].
          destruct (firstRecord contents (row_id r')) as [c|]; [|reflexivity].
          exists c. auto. }
      destruct Hpass as (st1 & w2 & Hrun' & Hev & Hresolved).
      rewrite Hrun in Hrun'. injection Hrun' as -> ->.
      rewrite Hloopc in Hev.
      destruct (needsScraping (joined contents r)) eqn:Hn.
      + apply (Hresolved (joined contents r)).
        unfold selected. rewrite Hpop. apply filter_In. split; [|exact Hn].
        now apply in_map.
      + eapply firstResolved_evolves; [exact Hev|]. now apply Hold. }
  assert (Harts : articles w1 = rows).
  { destruct (run_effects env w) as (evs & _ & _ & _ & _ & _ & Ha & _). exact Ha. }
  assert (Hres : fullyResolved w1 = true).
  { unfold fullyResolved, population. rewrite Harts. apply forallb_forall. intros x Hx.
    apply in_map_iff in Hx. destruct Hx as (r & <- & Hr).
    rewrite resolved_first. destruct (Hfirst r Hr) as (c & -> & Hc). exact Hc. }
  split; [exact Hexit|]. split; [exact Hres|].
  apply fullyResolved_selected. exact Hres.
Qed.

End Convergence.

(** ** Effects of an iteration and of a run *)

Section RunEffects.

Variable env : Env.

(** X6.  An iteration makes no request, or requests on the URL of its
    article only: Cheerio alone, Cheerio and then Puppeteer, or Puppeteer
    alone; never the same strategy twice, never Puppeteer before Cheerio.
    A selected article that has a URL gets at least one request, whatever
    the persistence faults. *)
Theorem requests_per_article (a : Article.t) (isLast : bool)
    (st : ScrapingStats) (w : World) :
  exists evs,
    trace (snd (processArticle env a isLast st w)) = trace w ++ evs
    /\ (filter isExtraction evs = []
        \/ exists url,
             Article.url a = Some url
             /\ In (filter isExtraction evs)
                  [[EvAxiosGet url]; [EvAxiosGet url; EvPuppeteerGoto url];
                   [EvPuppeteerGoto url]])
    /\ (hasUrl a = true -> needsScraping a = true -> filter isExtraction evs <> []).
Proof.
  destruct (iteration_effects env a isLast st w) as (evs & Ht & Hreq & Hsome & _).
  exists evs. auto.
Qed.

(** X7.  An iteration creates at most one record, and none for an article
    that already has one: that record is updated in place. *)
Theorem record_created_only_if_absent (a : Article.t) (isLast : bool)
    (st : ScrapingStats) (w : World) :
  exists evs,
    trace (snd (processArticle env a isLast st w)) = trace w ++ evs
    /\ List.length (filter isCreate evs) <= 1
    /\ (existingContentOf a <> None -> filter isCreate evs = []).
Proof.
  destruct (iteration_effects env a isLast st w)
    as (evs & Ht & _ & _ & Hrec & Hone & _).
  exists evs. auto.
Qed.

(** X8.  A run makes at most two extraction requests per selected article
    and creates at most one record per selected article without record,
    whatever the web answers and whatever the persistence faults. *)
Theorem run_effort_bounds (rows : list ArticleRow) (contents : list ArticleContent.t)
    (next : Z) :
  let w := start rows contents next in
  let w1 := snd (program env w) in
  List.length (filter isExtraction (trace w1)) <= 2 * List.length (selected w)
  /\ List.length (filter isCreate (trace w1))
     <= List.length (filter hasNoRecord (selected w)).
Proof.
  intros w w1. destruct (run_effects env w) as (evs & Ht & Hreq & Hcr & _).
  subst w1. rewrite Ht. split; assumption.
Qed.


(** X10.  A run never deletes or reorders a record and never touches the
    articles: the store it leaves holds, in order, a row for each row it
    found, with the same [id] and [articleId] and no status set back to
    [null], followed by the rows it created.  This holds for runs that a
    persistence fault aborts as well. *)
Theorem store_only_grows (rows : list ArticleRow) (contents : list ArticleContent.t)
    (next : Z) :
  let w1 := snd (program env (start rows contents next)) in
  evolves keeps contents (articleContents w1) /\ articles w1 = rows.
Proof.
  intros w1.
  destruct (run_effects env (start rows contents next))
    as (evs & _ & _ & _ & _ & Hev & Ha & _).
  split; assumption.
Qed.

(** X11.  In a run that exits with 0 the one-second delay is issued once
    for every selected article that has a URL and is not the last of the
    selection: an article without URL is skipped without delay, even in
    the middle of the pass. *)
Theorem delays_of_a_pass (rows : list ArticleRow) (contents : list ArticleContent.t)
    (next : Z) :
  let w := start rows contents next in
  fst (program env w) = Exited 0 ->
  List.length (filter isDelay (trace (snd (program env w))))
  = List.length (filter hasUrl (removelast (selected w))).
Proof.
  intros w Hexit. destruct (run_effects env w) as (evs & Ht & _ & _ & _ & _ & _ & Hdel).
  rewrite Ht. exact (Hdel Hexit).
Qed.

(** X13.  The statistics a run prints say what the pass did with the
    selection: [skipped] counts the selected articles without URL, the two
    Cheerio counters together count those that needed Cheerio, and every
    Puppeteer outcome is a Cheerio failure of this pass followed up, or an
    article resumed after a Cheerio failure of an earlier pass. *)
Theorem summary_counts_the_selection (rows : list ArticleRow)
    (contents : list ArticleContent.t) (next : Z) (st : ScrapingStats)
    (rate : option string) :
  let w := start rows contents next in
  In (EvSummary st rate) (trace (snd (program env w))) ->
  skipped st = List.length (filter (fun a => negb (hasUrl a)) (selected w))
  /\ cheerioSuccess st + cheerioFailed st
     = List.length (filter triesCheerio (selected w))
  /\ puppeteerSuccess st + puppeteerFailed st
     = cheerioFailed st + List.length (filter resumesWithPuppeteer (selected w)).
Proof.
  intros w Hin.
  destruct (program_loop env w)
    as [(evs & Ht & _ & _ & _ & _ & Hno)
       |(r & wl & evs & tail & Hrun & Htl & Ht & _ & _ & _ & _ & Hsum)];
    rewrite Ht in Hin; cbn [trace w start app] in Hin.
  - now apply Hno in Hin.
  - pose proof (pass_effects env (selected w) (initialStats (List.length (selected w)))
                  (afterFindAll w)) as Hpass.
    unfold wp in Hpass. rewrite Hrun in Hpass. cbn [fst snd] in Hpass.
    destruct Hpass as (evs' & Ht' & _ & _ & _ & Hloop & _).
    rewrite Htl in Ht'. apply app_inv_head in Ht'. subst evs'.
    destruct Hin as [Hin|[Hin|Hin]]; try discriminate Hin.
    apply in_app_or in Hin. destruct Hin as [Hin|Hin].
    + rewrite forallb_forall in Hloop. apply Hloop in Hin. discriminate Hin.
    + rewrite (Hsum st rate Hin) in Hrun. apply pass_counters in Hrun.
      unfold counted in Hrun. cbn [initialStats skipped cheerioSuccess cheerioFailed
        puppeteerSuccess puppeteerFailed total] in Hrun. lia.
Qed.

(** X14.  However an iteration on a selected article ends (also when a
    persistence fault aborts it half-way), either the store is untouched or
    the first record of the article is resolved or holds Cheerio status
    [false] with Puppeteer status [null]: once anything was written,
    Cheerio is on record and the next run resumes with Puppeteer at most. *)
Theorem aborted_iteration_keeps_progress (a : Article.t) (isLast : bool)
    (st : ScrapingStats) (w : World) (url : string) :
  Article.url a = Some url ->
  truthy url = true ->
  needsScraping a = true ->
  linked a (articleContents w) ->
  let w1 := snd (processArticle env a isLast st w) in
  articleContents w1 = articleContents w
  \/ exists c1,
       firstRecord (articleContents w1) (Article.id a) = Some c1
       /\ (resolvedRow c1 = true
           \/ (ArticleContent.scrapeStatusCheerio c1 = Some false
               /\ ArticleContent.scrapeStatusPuppeteer c1 = None)).
Proof.
  intros Hurl Htr Hsel Hlink. exact (iteration_progress env a isLast st w url Hurl Htr Hsel Hlink).
Qed.

End RunEffects.

(** ** More instances *)

Section MoreWitnesses.

Import Samples MoreSamples.

Lemma pass_without_urls_witness :
  forallb (fun a => negb (hasUrl a)) unlinked = true
  /\ processArticles env0 unlinked (initialStats 2) mixed
     = (Val (mkStats 2 0 0 0 0 2), mixed).
Proof.
  split; [reflexivity|].
  exact (pass_without_urls env0 unlinked (initialStats 2) mixed eq_refl).
Defined.

Lemma run_exit_code_witness :
  (forall n, dbFault env0 n = false) /\ fst (program env0 mixed) = Exited 0.
Proof.
  split; [reflexivity|].
  exact (proj1 (proj2 (run_exit_code env0 mixed)) (fun n => eq_refl)).
Defined.

Lemma cheerio_threshold_counts_separators_witness :
  let texts := [text 150; ""%string; text 150] in
  axios_get env0 "http://static" = Ok "http://static"%string
  /\ cheerio_paragraphs env0 "http://static" = Ok texts
  /\ exists result,
       fst (scrapeArticleContentWithCheerio env0 "http://static" mixed) = Val result
       /\ ScrapeResult.success result = true.
Proof.
  intros texts. split; [reflexivity|]. split; [reflexivity|].
  destruct (cheerio_threshold_counts_separators env0 "http://static" mixed
              "http://static"%string texts eq_refl eq_refl)
    as (result & Hrun & _ & Hiff).
  exists result. split; [exact Hrun|].
  apply Hiff; [discriminate|]. apply Nat.leb_le. vm_compute. reflexivity.
Defined.

Lemma puppeteer_content_source_witness :
  let dom := ([] : list string, text 600) in
  puppeteer_goto env0 "http://js" = Ok tt
  /\ page_evaluate env0 "http://js" = Ok dom
  /\ browser_close env0 "http://js" = Ok tt
  /\ filter nonEmptyText (fst dom) = []
  /\ fst (scrapeArticleContentWithPuppeteer env0 "http://js" mixed)
     = Val (checkLength (snd dom)).
Proof.
  intros dom. repeat (split; [reflexivity|]).
  exact (proj1 (puppeteer_content_source env0 "http://js" mixed dom
                  eq_refl eq_refl eq_refl) eq_refl).
Defined.

Lemma requests_per_article_witness :
  hasUrl pending = true
  /\ needsScraping pending = true
  /\ exists evs,
       trace (snd (processArticle env0 pending true (initialStats 1) mixed))
       = trace mixed ++ evs
       /\ filter isExtraction evs <> [].
Proof.
  split; [reflexivity|]. split; [reflexivity|].
  destruct (requests_per_article env0 pending true (initialStats 1) mixed)
    as (evs & Ht & _ & Hsome).
  exists evs. split; [exact Ht|exact (Hsome eq_refl eq_refl)].
Defined.

Lemma record_created_only_if_absent_witness :
  existingContentOf pending <> None
  /\ exists evs,
       trace (snd (processArticle env0 pending true (initialStats 1) mixed))
       = trace mixed ++ evs
       /\ filter isCreate evs = [].
Proof.
  assert (Hsome : existingContentOf pending <> None) by discriminate.
  split; [exact Hsome|].
  destruct (record_created_only_if_absent env0 pending true (initialStats 1) mixed)
    as (evs & Ht & _ & Hnone).
  exists evs. split; [exact Ht|exact (Hnone Hsome)].
Defined.

Lemma delays_of_a_pass_witness :
  fst (program env0 mixed) = Exited 0
  /\ List.length (filter isDelay (trace (snd (program env0 mixed))))
     = List.length (filter hasUrl (removelast (selected mixed))).
Proof.
  assert (Hexit : fst (program env0 mixed) = Exited 0) by (vm_compute; reflexivity).
  split; [exact Hexit|].
  exact (delays_of_a_pass env0 (articles mixed) (articleContents mixed)
           (nextContentId mixed) Hexit).
Defined.

Lemma clean_pass_resolves_everything_witness :
  (forall n, dbFault env0 n = false)
  /\ NoDup (map row_id (articles mixed))
  /\ (forall r, In r (articles mixed) -> truthy_opt (row_url r) = true)
  /\ fullyResolved (snd (program env0 mixed)) = true.
Proof.
  assert (Hnd : NoDup (map row_id (articles mixed))).
  { repeat constructor; simpl; intuition discriminate. }
  assert (Hurls : forall r, In r (articles mixed) -> truthy_opt (row_url r) = true).
  { intros r Hr. simpl in Hr. decompose [or] Hr; subst; try reflexivity. contradiction. }
  split; [reflexivity|]. split; [exact Hnd|]. split; [exact Hurls|].
  exact (proj1 (proj2 (clean_pass_resolves_everything env0 (fun n => eq_refl)
                         (articles mixed) (articleContents mixed)
                         (nextContentId mixed) Hnd Hurls))).
Defined.

Lemma summary_counts_the_selection_witness :
  let st := mkStats 4 1 2 2 1 0 in
  In (EvSummary st (Some "75.0"%string)) (trace (snd (program env0 mixed)))
  /\ puppeteerSuccess st + puppeteerFailed st
     = cheerioFailed st + List.length (filter resumesWithPuppeteer (selected mixed)).
Proof.
  intros st.
  assert (Hin : In (EvSummary st (Some "75.0"%string)) (trace (snd (program env0 mixed))))
    by (apply (from_end_In _ 2); vm_compute; reflexivity).
  split; [exact Hin|].
  exact (proj2 (proj2 (summary_counts_the_selection env0 (articles mixed)
                         (articleContents mixed) (nextContentId mixed) st _ Hin))).
Defined.

Lemma aborted_iteration_keeps_progress_witness :
  let env := web (fun n => Nat.eqb n 1) in
  let a := fresh 2 "http://js" in
  let w := start [row "http://js" 2] [] 1 in
  let w1 := snd (processArticle env a true (initialStats 1) w) in
  Article.url a = Some "http://js"%string
  /\ truthy "http://js" = true
  /\ needsScraping a = true
  /\ linked a (articleContents w)
  /\ (articleContents w1 = articleContents w
      \/ exists c1,
           firstRecord (articleContents w1) (Article.id a) = Some c1
           /\ (resolvedRow c1 = true
               \/ (ArticleContent.scrapeStatusCheerio c1 = Some false
                   /\ ArticleContent.scrapeStatusPuppeteer c1 = None))).
Proof.
  intros env a w w1. repeat (split; [reflexivity|]).
  exact (aborted_iteration_keeps_progress env a true (initialStats 1) w "http://js"
           eq_refl eq_refl eq_refl eq_refl).
Defined.

End MoreWitnesses.

(** ** The statistics of a pass *)

Section Statistics.

Variable env : Env.

Ltac wp_go Hc Hp :=
  repeat (cbn beta iota zeta delta [continue];
    match goal with
    | |- wp (bind _ _) _ _ => apply wp_bind
    | |- wp (ret _) _ _ => apply wp_ret
    | |- wp (emit _) _ _ => apply wp_emit
    | |- wp (throw _) _ _ => apply wp_throw
    | |- wp (scrapeArticleContentWithCheerio _ _) _ _ => apply Hc
    | |- wp (scrapeArticleContentWithPuppeteer _ _) _ _ => apply Hp
    | |- wp (update _ _ _) _ _ => apply wp_update; intros ?
    | |- wp (create _ _ _ _ _) _ _ => apply wp_create; intros ?
    | |- wp (findOne _ _) _ _ => apply wp_findOne; intros ?
    | |- wp (if ?b then _ else _) _ _ => destruct b eqn:?
    | |- wp (match ?x with _ => _ end) _ _ => destruct x eqn:?
    end).

(** What an attempt returns is the same in every world, so the observers
    say what happens in the loop. *)
Lemma attempts_observed (url : string) (w : World) (result : ScrapeResult.t) :
  (fst (scrapeArticleContentWithCheerio env url w) = Val result ->
   attemptSucceeds (scrapeArticleContentWithCheerio env url) = succeeded result)
  /\ (fst (scrapeArticleContentWithPuppeteer env url w) = Val result ->
      attemptSucceeds (scrapeArticleContentWithPuppeteer env url) = succeeded result).
Proof.
  destruct (cheerio_returns env url) as [rc Hrc], (puppeteer_returns env url) as [rp Hrp].
  unfold attemptSucceeds. rewrite !Hrc, !Hrp. cbn [fst].
  split; intros [= <-]; reflexivity.
Qed.

(** The counters and the requests of an iteration on a selected article
    that has a URL, by the outcome of the attempts. *)
Lemma iteration_tally (a : Article.t) (isLast : bool) (st : ScrapingStats)
    (w : World) (url : string) :
  Article.url a = Some url ->
  truthy url = true ->
  needsScraping a = true ->
  wp (processArticle env a isLast st)
    (fun r w1 =>
       forall st1, r = Val st1 ->
       exists evs,
         trace w1 = trace w ++ evs
         /\ (st1, filter isExtraction evs)
            = if needsCheerioOf (existingContentOf a) then
                if cheerioSucceeds env a then (incCheerioSuccess st, [EvAxiosGet url])
                else if puppeteerSucceeds env a
                then (incPuppeteerSuccess (incCheerioFailed st),
                      [EvAxiosGet url; EvPuppeteerGoto url])
                else (incPuppeteerFailed (incCheerioFailed st),
                      [EvAxiosGet url; EvPuppeteerGoto url])
              else if puppeteerSucceeds env a
              then (incPuppeteerSuccess st, [EvPuppeteerGoto url])
              else (incPuppeteerFailed st, [EvPuppeteerGoto url])) w.
Proof.
  intros Hurl Htr Hsel.
  destruct (cheerio_returns env url) as [rc Hrc], (puppeteer_returns env url) as [rp Hrp].
  assert (HcS : cheerioSucceeds env a = succeeded rc).
  { unfold cheerioSucceeds, attemptSucceeds. now rewrite Hurl, Hrc. }
  assert (HpS : puppeteerSucceeds env a = succeeded rp).
  { unfold puppeteerSucceeds, attemptSucceeds. now rewrite Hurl, Hrp. }
  assert (Hc : forall (Q : Outcome ScrapeResult.t -> World -> Prop) w0,
             Q (Val rc) (log (EvAxiosGet url) w0) ->
             wp (scrapeArticleContentWithCheerio env url) Q w0).
  { intros Q w0 H. unfold wp. now rewrite Hrc. }
  assert (Hp : forall (Q : Outcome ScrapeResult.t -> World -> Prop) w0,
             Q (Val rp) (log (EvPuppeteerGoto url) w0) ->
             wp (scrapeArticleContentWithPuppeteer env url) Q w0).
  { intros Q w0 H. unfold wp. now rewrite Hrp. }
  rewrite HcS, HpS. clear HcS HpS Hrc Hrp.
  unfold processArticle. rewrite Hurl, Htr.
  rewrite needsScraping_existing in Hsel.
  unfold cheerioBranch, puppeteerBranch, cascadeToPuppeteer, contentRecordOf,
    updateIfFound, needsCheerioOf, needsPuppeteerOf.
  destruct (existingContentOf a) as [c|];
    [destruct (ArticleContent.scrapeStatusCheerio c) as [[|]|],
              (ArticleContent.scrapeStatusPuppeteer c) as [[|]|];
     try discriminate Hsel|];
    simpl; wp_go Hc Hp.
  all: cbn beta iota zeta delta [continue].
  all: intros st1 Hst; try discriminate Hst; injection Hst as <-.
  all: eexists; split;
    [first [symmetry; apply app_nil_r
           |simpl; rewrite <- ?app_assoc; simpl; reflexivity]
    |reflexivity].
Qed.

(** The counters after an iteration on a selected article. *)
Lemma iteration_tallied (a : Article.t) (isLast : bool) (st : ScrapingStats)
    (w : World) (st1 : ScrapingStats) (w1 : World) :
  needsScraping a = true ->
  processArticle env a isLast st w = (Val st1, w1) ->
  tallied env [a] st st1.
Proof.
  intros Hsel Hrun.
  unfold tallied, endsWithPuppeteer, endsWithCheerio, cascades, triesCheerio, hasUrl.
  cbn [filter].
  destruct (Article.url a) as [url|] eqn:Hurl; cbn [truthy_opt].
  2:{ unfold processArticle in Hrun. rewrite Hurl in Hrun. injection Hrun as <- _.
      simpl. lia. }
  destruct (truthy url) eqn:Htr.
  2:{ unfold processArticle in Hrun. rewrite Hurl, Htr in Hrun. injection Hrun as <- _.
      simpl. lia. }
  pose proof (iteration_tally a isLast st w url Hurl Htr Hsel) as Hit.
  unfold wp in Hit. rewrite Hrun in Hit. cbn [fst snd] in Hit.
  destruct (Hit st1 eq_refl) as (evs & _ & Hst).
  destruct (needsCheerioOf (existingContentOf a)), (cheerioSucceeds env a),
           (puppeteerSucceeds env a);
    injection Hst as -> _; simpl; lia.
Qed.

(** The counters after a pass over selected articles. *)
Lemma pass_tallied (l : list Article.t) :
  forallb needsScraping l = true ->
  forall st w st1 w1,
    processArticles env l st w = (Val st1, w1) -> tallied env l st st1.
Proof.
  induction l as [|a rest IH]; intros Hall st w st1 w1.
  - intros [= <- _]. unfold tallied. simpl. lia.
  - simpl in Hall. apply andb_prop in Hall. destruct Hall as [Ha Hrest].
    rewrite processArticles_cons.
    destruct (processArticle env a _ st w) as [[st'|e|c] w'] eqn:Hit; try discriminate.
    intros Hpass. apply (IH Hrest) in Hpass.
    apply (iteration_tallied _ _ _ _ _ _ Ha) in Hit.
    unfold tallied in *. cbn [filter] in *.
    destruct (hasUrl a), (endsWithCheerio env a), (cascades env a),
             (endsWithPuppeteer env a), (puppeteerSucceeds env a);
      cbn [negb andb List.length] in *; lia.
Qed.

(** The statistics a run prints are those of its completed pass. *)
Lemma summary_tallied (w : World) (st : ScrapingStats) (rate : option string) :
  trace w = [] ->
  In (EvSummary st rate) (trace (snd (program env w))) ->
  tallied env (selected w) (initialStats (List.length (selected w))) st.
Proof.
  intros Hnil Hin.
  destruct (program_loop env w)
    as [(evs & Ht & _ & _ & _ & _ & Hno)
       |(r & wl & evs & tail & Hrun & Htl & Ht & _ & _ & _ & _ & Hsum)];
    rewrite Ht, Hnil in Hin; cbn [app] in Hin.
  - now apply Hno in Hin.
  - pose proof (pass_effects env (selected w) (initialStats (List.length (selected w)))
                  (afterFindAll w)) as Hpass.
    unfold wp in Hpass. rewrite Hrun in Hpass. cbn [fst snd] in Hpass.
    destruct Hpass as (evs' & Ht' & _ & _ & _ & Hloop & _).
    rewrite Htl in Ht'. apply app_inv_head in Ht'. subst evs'.
    destruct Hin as [Hin|[Hin|Hin]]; try discriminate Hin.
    apply in_app_or in Hin. destruct Hin as [Hin|Hin].
    + rewrite forallb_forall in Hloop. apply Hloop in Hin. discriminate Hin.
    + rewrite (Hsum st rate Hin) in Hrun.
      apply pass_tallied in Hrun; [exact Hrun|]. apply forallb_filter.
Qed.

(** C10.  Every selected article is counted with exactly one terminal
    outcome.  An iteration that returns leaves the counters as follows: an
    article without URL bumps [skipped] alone and is not requested; a
    Cheerio attempt that succeeds bumps [cheerioSuccess] alone, Puppeteer
    not being invoked; a Cheerio attempt that fails bumps [cheerioFailed]
    and, the cascade having run, one of [puppeteerSuccess] and
    [puppeteerFailed] by the outcome of Puppeteer; a resumed article bumps
    one of the two Puppeteer counters alone.  So in the statistics of every
    summary a run prints each counter is the number of selected articles
    with that outcome, and
    [total = skipped + cheerioSuccess + puppeteerSuccess + puppeteerFailed];
    a pass that meets no persistence fault does print its summary. *)
Theorem statistics_account_for_every_article (rows : list ArticleRow)
    (contents : list ArticleContent.t) (next : Z) :
  let w := start rows contents next in
  let w1 := snd (program env w) in
  (forall url w0 result,
     (fst (scrapeArticleContentWithCheerio env url w0) = Val result ->
      attemptSucceeds (scrapeArticleContentWithCheerio env url) = succeeded result)
     /\ (fst (scrapeArticleContentWithPuppeteer env url w0) = Val result ->
         attemptSucceeds (scrapeArticleContentWithPuppeteer env url) = succeeded result))
  /\ (forall a isLast st w0 st1 w2,
        needsScraping a = true ->
        processArticle env a isLast st w0 = (Val st1, w2) ->
        exists evs,
          trace w2 = trace w0 ++ evs
          /\ (hasUrl a = false ->
              st1 = incSkipped st /\ filter isExtraction evs = [])
          /\ (forall url,
                Article.url a = Some url ->
                truthy url = true ->
                (triesCheerio a = true ->
                 cheerioSucceeds env a = true ->
                 st1 = incCheerioSuccess st
                 /\ filter isExtraction evs = [EvAxiosGet url])
                /\ (triesCheerio a = true ->
                    cheerioSucceeds env a = false ->
                    filter isExtraction evs = [EvAxiosGet url; EvPuppeteerGoto url]
                    /\ (puppeteerSucceeds env a = true ->
                        st1 = incPuppeteerSuccess (incCheerioFailed st))
                    /\ (puppeteerSucceeds env a = false ->
                        st1 = incPuppeteerFailed (incCheerioFailed st)))
                /\ (triesCheerio a = false ->
                    filter isExtraction evs = [EvPuppeteerGoto url]
                    /\ (puppeteerSucceeds env a = true -> st1 = incPuppeteerSuccess st)
                    /\ (puppeteerSucceeds env a = false ->
                        st1 = incPuppeteerFailed st))))
  /\ (forall st rate,
        In (EvSummary st rate) (trace w1) ->
        total st = List.length (selected w)
        /\ total st = skipped st + cheerioSuccess st + puppeteerSuccess st
                      + puppeteerFailed st
        /\ skipped st = List.length (filter (fun a => negb (hasUrl a)) (selected w))
        /\ cheerioSuccess st = List.length (filter (endsWithCheerio env) (selected w))
        /\ cheerioFailed st = List.length (filter (cascades env) (selected w))
        /\ puppeteerSuccess st
           = List.length
               (filter (fun a => endsWithPuppeteer env a && puppeteerSucceeds env a)
                  (selected w))
        /\ puppeteerFailed st
           = List.length
               (filter (fun a => endsWithPuppeteer env a && negb (puppeteerSucceeds env a))
                  (selected w)))
  /\ (selected w <> [] ->
      (forall n, dbFault env n = false) ->
      exists pre st,
        trace w1 = pre ++ [summary st; EvClose; EvExit 0]
        /\ fst (program env w) = Exited 0).
Proof.
  intros w w1. split; [|split; [|split]].
  - intros url w0 result. apply attempts_observed.
  - intros a isLast st w0 st1 w2 Hsel Hrun. unfold triesCheerio, hasUrl.
    destruct (Article.url a) as [url|] eqn:Hurl; cbn [truthy_opt].
    2:{ unfold processArticle in Hrun. rewrite Hurl in Hrun. injection Hrun as <- <-.
        exists []. split; [symmetry; apply app_nil_r|].
        split; [intros _; split; reflexivity|]. intros url Hu. discriminate Hu. }
    destruct (truthy url) eqn:Htr.
    2:{ unfold processArticle in Hrun. rewrite Hurl, Htr in Hrun. injection Hrun as <- <-.
        exists []. split; [symmetry; apply app_nil_r|].
        split; [intros _; split; reflexivity|].
        intros url' [= <-] Hu. rewrite Htr in Hu. discriminate Hu. }
    pose proof (iteration_tally a isLast st w0 url Hurl Htr Hsel) as Hit.
    unfold wp in Hit. rewrite Hrun in Hit. cbn [fst snd] in Hit.
    destruct (Hit st1 eq_refl) as (evs & Ht & Hst).
    exists evs. split; [exact Ht|]. split; [intros Hu; discriminate Hu|].
    intros url' [= <-] _. cbn [andb].
    destruct (needsCheerioOf (existingContentOf a)), (cheerioSucceeds env a),
             (puppeteerSucceeds env a);
      injection Hst as -> ->;
      repeat (intros; match goal with |- _ /\ _ => split end);
      intros; first [reflexivity|discriminate].
  - intros st rate Hin.
    destruct (summary_in_run env w st rate eq_refl Hin) as (_ & Htot & Hacc & _).
    pose proof (summary_tallied w st rate eq_refl Hin) as Htal.
    unfold tallied in Htal.
    cbn [initialStats skipped cheerioSuccess cheerioFailed puppeteerSuccess
         puppeteerFailed total] in Htal.
    unfold accounted in Hacc.
    destruct Htal as (_ & Hsk & Hcs & Hcf & Hps & Hpf).
    repeat match goal with |- _ /\ _ => split end; trivial; lia.
  - intros Hsel Hok. now apply pass_completes.
Qed.

End Statistics.

Section StatisticsWitness.

Import Samples.

Lemma statistics_account_for_every_article_witness :
  let st := mkStats 4 1 2 2 1 0 in
  In (EvSummary st (Some "75.0"%string)) (trace (snd (program env0 mixed)))
  /\ total st = skipped st + cheerioSuccess st + puppeteerSuccess st + puppeteerFailed st
  /\ cheerioSuccess st = List.length (filter (endsWithCheerio env0) (selected mixed))
  /\ cheerioFailed st = List.length (filter (cascades env0) (selected mixed)).
Proof.
  intros st.
  assert (Hin : In (EvSummary st (Some "75.0"%string)) (trace (snd (program env0 mixed))))
    by (apply (from_end_In _ 2); vm_compute; reflexivity).
  split; [exact Hin|].
  destruct (proj1 (proj2 (proj2 (statistics_account_for_every_article env0
                                   (articles mixed) (articleContents mixed)
                                   (nextContentId mixed)))) st _ Hin)
    as (_ & Hsum & _ & Hcs & Hcf & _).
  split; [exact Hsum|]. split; [exact Hcs|exact Hcf].
Defined.

End StatisticsWitness.
